(** * Ray tracing through a stratified water column (MBES-lib)

    Shallow embedding of [src/georeferencing/Raytracing.hpp]: the three layer
    propagation formulas, [soundSpeedGradient], [launchVectorParameters], and
    the two accumulators [rayTrace] (3D) and [planarRayTrace] (2D, with the
    per-layer breakdown).

    Numbers.  A C++ [double] is modelled by a real number of the Standard
    Library: [sqrt], [ln], [cos], [asin], [Rabs] and [/] stand for [sqrt],
    [log], [cos], [asin], [abs] and [/] of the source, and [pow(x, 2)] is
    [x ^ 2].  Rounding, infinities and NaN have no counterpart in this model:
    where the source divides by zero, or takes the square root or the
    logarithm of a number outside the domain, the functions of the Standard
    Library still return a real number, and a theorem that depends on such a
    value keeps the arguments in the domain by its hypotheses.  Where the
    property is that the source does not divide by zero, the division is
    [divide], which has no result for a divisor that is zero.
    Unsigned indices and sizes are binary naturals ([N]); the one place where
    the source can wrap around, [svp.getSize()-1], is written out.

    Failures.  The source can leave a trace in two ways: the exception
    [std::invalid_argument] thrown by [soundSpeedGradient], and a coefficient
    access outside an Eigen vector.  Both are results of the model. *)

From Stdlib Require Import Reals Lra Lia List Bool NArith Psatz.
Import ListNotations.

Open Scope R_scope.

(** ** Outcomes of a trace *)

Inductive failure : Type :=
| InvalidArgument (z0 z1 : R)
    (** [std::invalid_argument], thrown by [soundSpeedGradient]; the message
        carries the two depths. *)
| IndexOutOfRange
    (** coefficient access [v(i)] with [i] outside the vector. *)
| IterationBudgetExceeded.
    (** never produced by a trace: the layer walk of the model counts its
        iterations against a budget, and the budget given by the accumulators
        always suffices (see [layerWalk_within_budget]). *)

Inductive outcome (A : Type) : Type :=
| Ok (a : A)
| Raise (f : failure).

Arguments Ok {A} a.
Arguments Raise {A} f.

Definition bind {A B : Type} (m : outcome A) (k : A -> outcome B) : outcome B :=
  match m with
  | Ok a => k a
  | Raise f => Raise f
  end.

Notation "x <- m ;; k" := (bind m (fun x => k))
  (at level 61, m at next level, right associativity).

Definition succeeds {A : Type} (m : outcome A) : Prop :=
  exists a, m = Ok a.

Definition mapOutcome {A B : Type} (f : A -> B) (m : outcome A) : outcome B :=
  match m with
  | Ok a => Ok (f a)
  | Raise e => Raise e
  end.

(** ** Eigen vectors and matrices *)

Abbreviation Vector2d := (R * R)%type.
Abbreviation Vector3d := (R * R * R)%type.
(** A 3x3 matrix, given by its three rows. *)
Abbreviation Matrix3d := (Vector3d * Vector3d * Vector3d)%type.
Abbreviation VectorXd := (list R).

Definition dot3 (a b : Vector3d) : R :=
  let '(a0, a1, a2) := a in
  let '(b0, b1, b2) := b in
  a0 * b0 + a1 * b1 + a2 * b2.

(** [a / b] on doubles, where it matters whether the divisor is zero: the
    source then gets NaN (for [0.0 / 0.0]) or an infinity, neither of them a
    real number, while [a / 0] of the Standard Library is [0]. *)
Definition divide (a b : R) : option R :=
  if Req_dec_T b 0 then None else Some (a / b).

(** [m * v] *)
Definition matVec (m : Matrix3d) (v : Vector3d) : Vector3d :=
  let '(r0, r1, r2) := m in (dot3 r0 v, dot3 r1 v, dot3 r2 v).

(** [v.normalize()]: divides by the norm when the squared norm is positive. *)
Definition normalize (v : Vector3d) : Vector3d :=
  let '(x, y, z) := v in
  let n2 := x * x + y * y + z * z in
  if Rlt_dec 0 n2 then (x / sqrt n2, y / sqrt n2, z / sqrt n2) else v.

(** [v(i)] *)
Definition coeff (v : VectorXd) (i : N) : outcome R :=
  match nth_error v (N.to_nat i) with
  | Some x => Ok x
  | None => Raise IndexOutOfRange
  end.

Definition identity3 : Matrix3d := ((1, 0, 0), (0, 1, 0), (0, 0, 1)).

(** ** The collaborators, as read-only accessor records *)

Record Ping : Type := mkPing {
  getAlongTrackAngle : R;
  getAcrossTrackAngle : R;
  getTwoWayTravelTime : R;
  getSurfaceSoundSpeed : R;
  getTransducerDepth : R
}.

Record SoundVelocityProfile : Type := mkSvp {
  getSize : N;
  getDepths : VectorXd;
  getSpeeds : VectorXd;
  getSoundSpeedGradient : VectorXd;
  getLayerIndexForDepth : R -> N
}.

(** The shape a profile object keeps: [getSize] samples, one gradient per
    interval. *)
Definition consistentProfile (svp : SoundVelocityProfile) : Prop :=
  (1 <= getSize svp)%N /\
  length (getDepths svp) = N.to_nat (getSize svp) /\
  length (getSpeeds svp) = N.to_nat (getSize svp) /\
  length (getSoundSpeedGradient svp) = N.to_nat (getSize svp - 1).

(** [svp.getSize()-1] on unsigned integers of 32 bits. *)
Definition sizeMinusOne (svp : SoundVelocityProfile) : N :=
  if (getSize svp =? 0)%N then 4294967295%N else (getSize svp - 1)%N.

(** ** Layer propagation formulas *)

Definition gradientEpsilon : R := 0.000001.

(** What a layer formula writes through its reference parameters. *)
Record LayerStep : Type := mkLayerStep {
  deltaZ : R;
  deltaR : R;
  deltaTravelTime : R
}.

Definition constantCelerityRayTracing (z0 z1 c snellConstant : R) : LayerStep :=
  let cosBn := snellConstant * c in
  let sinBn := sqrt (1 - cosBn ^ 2) in
  let dZ := z1 - z0 in
  let dT := dZ / (c * sinBn) in
  let dR := cosBn * dT * c in
  mkLayerStep dZ dR dT.

(** Returns [(deltaZ, deltaR)]. *)
Definition lastLayerPropagation (lastLayerTraveTime c_lastLayer snellConstant : R)
  : R * R :=
  let cosBn := snellConstant * c_lastLayer in
  let sinBn := sqrt (1 - cosBn ^ 2) in
  let dR := c_lastLayer * lastLayerTraveTime * cosBn in
  let dZ := c_lastLayer * lastLayerTraveTime * sinBn in
  (dZ, dR).

Definition constantGradientRayTracing (c0 c1 gradient snellConstant : R) : LayerStep :=
  let cosBnm1 := snellConstant * c0 in
  let cosBn := snellConstant * c1 in
  let sinBnm1 := sqrt (1 - cosBnm1 ^ 2) in
  let sinBn := sqrt (1 - cosBn ^ 2) in
  let radiusOfCurvature := 1 / (snellConstant * gradient) in
  let dT :=
    Rabs ((1 / Rabs gradient) * ln ((c1 / c0) * ((1 + sinBnm1) / (1 + sinBn)))) in
  let dZ := radiusOfCurvature * (cosBn - cosBnm1) in
  let dR := radiusOfCurvature * (sinBnm1 - sinBn) in
  mkLayerStep dZ dR dT.

Definition soundSpeedGradient (z0 c0 z1 c1 : R) : outcome R :=
  if Req_dec_T z1 z0 then Raise (InvalidArgument z0 z1)
  else Ok ((c1 - c0) / (z1 - z0)).

(** The choice between the two layer formulas, as both accumulators make it
    inside the loop for the layer that starts at sample [i]. *)
Definition profileLayer (svp : SoundVelocityProfile) (snellConstant : R) (i : N)
  : outcome LayerStep :=
  g <- coeff (getSoundSpeedGradient svp) i ;;
  if Rlt_dec (Rabs g) gradientEpsilon then
    z0 <- coeff (getDepths svp) i ;;
    z1 <- coeff (getDepths svp) (i + 1) ;;
    c <- coeff (getSpeeds svp) i ;;
    Ok (constantCelerityRayTracing z0 z1 c snellConstant)
  else
    c0 <- coeff (getSpeeds svp) i ;;
    c1 <- coeff (getSpeeds svp) (i + 1) ;;
    Ok (constantGradientRayTracing c0 c1 g snellConstant).

(** The same choice for the first step, from the transducer to the sample at
    the cutoff index. *)
Definition transducerLayer (ping : Ping) (svp : SoundVelocityProfile)
  (snellConstant : R) (svpCutoffIndex : N) : outcome LayerStep :=
  z1 <- coeff (getDepths svp) svpCutoffIndex ;;
  c1 <- coeff (getSpeeds svp) svpCutoffIndex ;;
  gradientTransducerSvp <-
    soundSpeedGradient (getTransducerDepth ping) (getSurfaceSoundSpeed ping) z1 c1 ;;
  if Rlt_dec (Rabs gradientTransducerSvp) gradientEpsilon then
    Ok (constantCelerityRayTracing (getTransducerDepth ping) z1
          (getSurfaceSoundSpeed ping) snellConstant)
  else
    Ok (constantGradientRayTracing (getSurfaceSoundSpeed ping) c1
          gradientTransducerSvp snellConstant).

(** ** Launch vector geometry and the two accumulators *)

Section Raytracing.

(** [CoordinateTransform::sonar2cartesian] is declared outside these sources:
    from the two beam angles and a range it gives a vector in the sonar
    frame.  Everything below holds for whatever it computes. *)
Variable sonar2cartesian : R -> R -> R -> Vector3d.

Variable ping : Ping.
Variable svp : SoundVelocityProfile.
Variable boresightMatrix imu2nav : Matrix3d.

(** The launch vector in the navigation frame. *)
Definition launchVectorNav : Vector3d :=
  let launchVectorSonar :=
    normalize
      (sonar2cartesian (getAlongTrackAngle ping) (getAcrossTrackAngle ping) 1) in
  matVec imu2nav (matVec boresightMatrix launchVectorSonar).

(** Returns [(sinAz, cosAz, beta0)]. *)
Definition launchVectorParameters : R * R * R :=
  let '(x, y, z) := launchVectorNav in
  let vNorm := sqrt (x ^ 2 + y ^ 2) in
  let sinAz := if Rlt_dec 0 vNorm then x / vNorm else 0 in
  let cosAz := if Rlt_dec 0 vNorm then y / vNorm else 0 in
  let beta0 := asin z in
  (sinAz, cosAz, beta0).

(** The two azimuth outputs [(sinAz, cosAz)] of [launchVectorParameters],
    with each division of the source as [divide]: an output is [None] when
    the source computes it by a division by zero. *)
Definition launchVectorAzimuth : option R * option R :=
  let '(x, y, z) := launchVectorNav in
  let vNorm := sqrt (x ^ 2 + y ^ 2) in
  let sinAz := if Rlt_dec 0 vNorm then divide x vNorm else Some 0 in
  let cosAz := if Rlt_dec 0 vNorm then divide y vNorm else Some 0 in
  (sinAz, cosAz).

Definition sinAz : R := fst (fst launchVectorParameters).
Definition cosAz : R := snd (fst launchVectorParameters).
Definition beta0 : R := snd launchVectorParameters.

Definition oneWayTravelTime : R := getTwoWayTravelTime ping / 2.
Definition snellConstant : R := cos beta0 / getSurfaceSoundSpeed ping.
Definition svpCutoffIndex : N := getLayerIndexForDepth svp (getTransducerDepth ping).

(** The local variables both accumulators share. *)
Record RayState : Type := mkRayState {
  currentLayerRaytraceTime : R;
  currentLayerDeltaZ : R;
  currentLayerDeltaR : R;
  cumulativeRaytraceTime : R;
  cumulativeRayX : R;
  cumulativeRayZ : R;
  currentLayerIndex : N
}.

Definition initialState : RayState := mkRayState 0 0 0 0 0 0 svpCutoffIndex.

(** A layer formula overwrites the three [currentLayer...] variables. *)
Definition setCurrentLayer (st : RayState) (s : LayerStep) : RayState :=
  mkRayState (deltaTravelTime s) (deltaZ s) (deltaR s)
    (cumulativeRaytraceTime st) (cumulativeRayX st) (cumulativeRayZ st)
    (currentLayerIndex st).

(** [cumulativeRayX += currentLayerDeltaR; cumulativeRayZ += currentLayerDeltaZ;
    cumulativeRaytraceTime += currentLayerRaytraceTime;] *)
Definition accumulate (st : RayState) : RayState :=
  mkRayState (currentLayerRaytraceTime st) (currentLayerDeltaZ st) (currentLayerDeltaR st)
    (cumulativeRaytraceTime st + currentLayerRaytraceTime st)
    (cumulativeRayX st + currentLayerDeltaR st)
    (cumulativeRayZ st + currentLayerDeltaZ st)
    (currentLayerIndex st).

(** [currentLayerIndex++] *)
Definition nextLayer (st : RayState) : RayState :=
  mkRayState (currentLayerRaytraceTime st) (currentLayerDeltaZ st) (currentLayerDeltaR st)
    (cumulativeRaytraceTime st) (cumulativeRayX st) (cumulativeRayZ st)
    (currentLayerIndex st + 1).

(** [cumulativeRaytraceTime + currentLayerRaytraceTime <= oneWayTravelTime] *)
Definition fits (st : RayState) : bool :=
  if Rle_dec (cumulativeRaytraceTime st + currentLayerRaytraceTime st) oneWayTravelTime
  then true else false.

(** The condition of the [while]. *)
Definition walkGuard (st : RayState) : bool :=
  fits st && (currentLayerIndex st <? sizeMinusOne svp)%N.

(** *** 3D: [rayTrace] *)

(** The block guarded by [svpCutoffIndex < svp.getSize()]. *)
Definition firstLayer : outcome RayState :=
  if (svpCutoffIndex <? getSize svp)%N then
    s <- transducerLayer ping svp snellConstant svpCutoffIndex ;;
    let st := setCurrentLayer initialState s in
    if fits st then Ok (accumulate st) else Ok st
  else Ok initialState.

(** The [while] loop.  [budget] bounds the number of times the body is
    entered. *)
Fixpoint layerWalk (budget : nat) (st : RayState) : outcome RayState :=
  if walkGuard st then
    match budget with
    | O => Raise IterationBudgetExceeded
    | S budget' =>
        s <- profileLayer svp snellConstant (currentLayerIndex st) ;;
        let st' := setCurrentLayer st s in
        if fits st' then layerWalk budget' (accumulate (nextLayer st'))
        else Ok st'
    end
  else Ok st.

(** [svp.getSize()-1] minus the index the walk starts from. *)
Definition walkBudget (st : RayState) : nat :=
  N.to_nat (sizeMinusOne svp - currentLayerIndex st).

(** The speed handed to [lastLayerPropagation]. *)
Definition lastLayerSpeed (st : RayState) : outcome R :=
  if (svpCutoffIndex <? getSize svp)%N then coeff (getSpeeds svp) (currentLayerIndex st)
  else Ok (getSurfaceSoundSpeed ping).

(** The state when the loop is left. *)
Definition accumulated : outcome RayState :=
  st <- firstLayer ;;
  layerWalk (walkBudget st) st.

Definition rayTrace : outcome Vector3d :=
  st <- accumulated ;;
  c_lastLayer <- lastLayerSpeed st ;;
  let lastLayerTraveTime := oneWayTravelTime - cumulativeRaytraceTime st in
  let '(dzf, dxf) := lastLayerPropagation lastLayerTraveTime c_lastLayer snellConstant in
  let Xf := cumulativeRayX st + dxf in
  let Zf := cumulativeRayZ st + dzf in
  Ok (Xf * sinAz, Xf * cosAz, Zf).

(** *** 2D: [planarRayTrace] *)

(** The accumulator variables together with the two output vectors
    [layerRays] and [layerTravelTimes], which the caller passes by reference
    and the trace appends to. *)
Record PlanarState : Type := mkPlanarState {
  ray : RayState;
  layerRays : list Vector2d;
  layerTravelTimes : list R
}.

(** [layerRays.push_back(layerRay); layerTravelTimes.push_back(currentLayerRaytraceTime);] *)
Definition pushLayer (st : RayState) (rays : list Vector2d) (times : list R)
  : PlanarState :=
  mkPlanarState st
    (rays ++ [(currentLayerDeltaR st, currentLayerDeltaZ st)])
    (times ++ [currentLayerRaytraceTime st]).

Definition planarFirstLayer (layerRays0 : list Vector2d) (layerTravelTimes0 : list R)
  : outcome PlanarState :=
  if (svpCutoffIndex <? getSize svp)%N then
    s <- transducerLayer ping svp snellConstant svpCutoffIndex ;;
    let st := setCurrentLayer initialState s in
    if fits st then Ok (pushLayer (accumulate st) layerRays0 layerTravelTimes0)
    else Ok (mkPlanarState st layerRays0 layerTravelTimes0)
  else Ok (mkPlanarState initialState layerRays0 layerTravelTimes0).

Fixpoint planarLayerWalk (budget : nat) (pst : PlanarState) : outcome PlanarState :=
  if walkGuard (ray pst) then
    match budget with
    | O => Raise IterationBudgetExceeded
    | S budget' =>
        s <- profileLayer svp snellConstant (currentLayerIndex (ray pst)) ;;
        let st' := setCurrentLayer (ray pst) s in
        if fits st' then
          planarLayerWalk budget'
            (pushLayer (accumulate (nextLayer st')) (layerRays pst) (layerTravelTimes pst))
        else Ok (mkPlanarState st' (layerRays pst) (layerTravelTimes pst))
    end
  else Ok pst.

Definition planarAccumulated (layerRays0 : list Vector2d) (layerTravelTimes0 : list R)
  : outcome PlanarState :=
  pst <- planarFirstLayer layerRays0 layerTravelTimes0 ;;
  planarLayerWalk (walkBudget (ray pst)) pst.

(** Returns [(raytracedPing, layerRays, layerTravelTimes)]. *)
Definition planarRayTrace (layerRays0 : list Vector2d) (layerTravelTimes0 : list R)
  : outcome (Vector2d * list Vector2d * list R) :=
  pst <- planarAccumulated layerRays0 layerTravelTimes0 ;;
  let st := ray pst in
  c_lastLayer <- lastLayerSpeed st ;;
  let lastLayerTraveTime := oneWayTravelTime - cumulativeRaytraceTime st in
  let '(dzf, dxf) := lastLayerPropagation lastLayerTraveTime c_lastLayer snellConstant in
  let Xf := cumulativeRayX st + dxf in
  let Zf := cumulativeRayZ st + dzf in
  Ok ((Xf, Zf),
      layerRays pst ++ [(dxf, dzf)],
      layerTravelTimes pst ++ [lastLayerTraveTime]).

End Raytracing.

(** ** Reading a trace *)

Definition sumR (l : list R) : R := fold_right Rplus 0 l.



(** The segment [r] and the travel time [t] are those of a layer step the
    trace can compute: the transducer-layer step, or the step across the
    layer that starts at some sample of the profile. *)
Definition layerStepOf (ping : Ping) (svp : SoundVelocityProfile) (snellConstant : R)
  (r : Vector2d) (t : R) : Prop :=
  exists s : LayerStep,
    (transducerLayer ping svp snellConstant (svpCutoffIndex ping svp) = Ok s \/
     exists i, profileLayer svp snellConstant i = Ok s) /\
    r = (deltaR s, deltaZ s) /\
    t = deltaTravelTime s.

(** What a planar walk has appended to the two output vectors: segments and
    times that satisfy [P] pairwise, and add up to the movement of the
    accumulators. *)
Definition appended (P : Vector2d -> R -> Prop) (pst0 pst : PlanarState)
  (rs : list Vector2d) (ts : list R) : Prop :=
  layerRays pst = layerRays pst0 ++ rs /\
  layerTravelTimes pst = layerTravelTimes pst0 ++ ts /\
  Forall2 P rs ts /\
  cumulativeRaytraceTime (ray pst) = cumulativeRaytraceTime (ray pst0) + sumR ts /\
  cumulativeRayX (ray pst) = cumulativeRayX (ray pst0) + sumR (map fst rs) /\
  cumulativeRayZ (ray pst) = cumulativeRayZ (ray pst0) + sumR (map snd rs).

(** Straight-line propagation at speed [c] for the time [t], for a ray launched
    at the grazing angle [beta]: [(range, depth)]. *)
Definition straightLine (c t beta : R) : Vector2d :=
  (c * t * cos beta, c * t * sqrt (1 - cos beta ^ 2)).

(** The accumulated range and depth are those of a straight line travelled at
    speed [c] for the accumulated time, at the grazing angle [beta]. *)
Definition onStraightLine (c beta : R) (st : RayState) : Prop :=
  cumulativeRayX st = fst (straightLine c (cumulativeRaytraceTime st) beta) /\
  cumulativeRayZ st = snd (straightLine c (cumulativeRaytraceTime st) beta).

(** A profile of uniform speed [c]: every sample has speed [c] and every
    gradient is zero. *)
Definition uniformProfile (svp : SoundVelocityProfile) (c : R) : Prop :=
  Forall (fun s => s = c) (getSpeeds svp) /\
  Forall (fun g => g = 0) (getSoundSpeedGradient svp).

(** How [rayTrace] re-orients a planar [(range, depth)] pair in the navigation
    frame. *)
Definition reorient (sinAz cosAz : R) (v : Vector2d) : Vector3d :=
  (fst v * sinAz, fst v * cosAz, snd v).

Definition aggregate (r : Vector2d * list Vector2d * list R) : Vector2d :=
  fst (fst r).

(** ** Sample inputs *)

Module Samples.

(** Modelled from the spec: [CoordinateTransform::sonar2cartesian] is not among
    the sources, and the spec only says that it supplies a unit launch vector
    in sensor coordinates.  This instance, the parametrisation of the unit
    sphere by the along-track and across-track angles in degrees, is used to
    build the sample traces only. *)
Definition sphericalBeam (alongTrackAngle acrossTrackAngle range : R) : Vector3d :=
  let theta := alongTrackAngle * (PI / 180) in
  let phi := acrossTrackAngle * (PI / 180) in
  (range * sin theta, range * cos theta * sin phi, range * cos theta * cos phi).

(** Modelled from the spec: [SoundVelocityProfile::getLayerIndexForDepth] is
    not among the sources; it returns the index of the first sample at or
    below the queried depth, or the number of samples when the depth is
    below all of them. *)
Fixpoint layerIndexForDepth (depths : list R) (depth : R) : N :=
  match depths with
  | [] => 0%N
  | z :: rest =>
      if Rle_dec depth z then 0%N else (1 + layerIndexForDepth rest depth)%N
  end.

(** A vehicle pitched so that the nadir beam leaves along [(3/5, 0, 4/5)]. *)
Definition pitched : Matrix3d := ((4/5, 0, 3/5), (0, 1, 0), (-3/5, 0, 4/5)).

(** Two samples at 12 m and 24 m, 1500 m/s throughout. *)
Definition twoLayers : SoundVelocityProfile :=
  mkSvp 2 [12; 24] [1500; 1500] [0] (layerIndexForDepth [12; 24]).

(** One sample at 12 m whose speed, 3000 m/s, does not match a surface speed
    of 1500 m/s. *)
Definition fastLayer : SoundVelocityProfile :=
  mkSvp 1 [12] [3000] [] (layerIndexForDepth [12]).

(** Four samples, the second and third at the same depth of 24 m; [g] is
    what the profile reports as the gradient between them. *)
Definition repeatedDepth (g : R) : SoundVelocityProfile :=
  mkSvp 4 [12; 24; 24; 36] [1500; 1500; 1500; 1500] [0; g; 0]
    (layerIndexForDepth [12; 24; 24; 36]).

(** A nadir beam, surface sound speed 1500 m/s. *)
Definition nadirPing (transducerDepth twoWayTravelTime : R) : Ping :=
  mkPing 0 0 twoWayTravelTime 1500 transducerDepth.

End Samples.

(** ** Further notions about a trace *)

(** [m] keeps the length of every vector, as a rotation matrix does. *)
Definition isometry (m : Matrix3d) : Prop :=
  forall v : Vector3d, dot3 (matVec m v) (matVec m v) = dot3 v v.

(** The gradient the profile reports for an interval is the one
    [soundSpeedGradient] computes from the two samples that bound it. *)
Definition derivedGradients (svp : SoundVelocityProfile) : Prop :=
  forall (i : N) (g z0 z1 c0 c1 : R),
    coeff (getSoundSpeedGradient svp) i = Ok g ->
    coeff (getDepths svp) i = Ok z0 ->
    coeff (getDepths svp) (i + 1) = Ok z1 ->
    coeff (getSpeeds svp) i = Ok c0 ->
    coeff (getSpeeds svp) (i + 1) = Ok c1 ->
    soundSpeedGradient z0 c0 z1 c1 = Ok g.

(** Every sample of the profile lies deeper than the one before it. *)
Definition increasingDepths (svp : SoundVelocityProfile) : Prop :=
  forall (i : N) (z0 z1 : R),
    coeff (getDepths svp) i = Ok z0 ->
    coeff (getDepths svp) (i + 1) = Ok z1 ->
    z0 < z1.

(** At the speed [c] the ray is not horizontal: [cosBn = snellConstant * c]
    stays strictly between -1 and 1. *)
Definition slantedAt (snellConstant c : R) : Prop := (snellConstant * c) ^ 2 < 1.

(** The output vectors of a planar walk, had the caller passed [rays0] and
    [times0] instead of empty vectors. *)
Definition prependState (rays0 : list Vector2d) (times0 : list R) (pst : PlanarState)
  : PlanarState :=
  mkPlanarState (ray pst) (rays0 ++ layerRays pst) (times0 ++ layerTravelTimes pst).

Definition prependResult (rays0 : list Vector2d) (times0 : list R)
  (r : Vector2d * list Vector2d * list R) : Vector2d * list Vector2d * list R :=
  (fst (fst r), rays0 ++ snd (fst r), times0 ++ snd r).

(** * [Position.hpp] *)

(** The members of a [Position], in the order of their declaration.  The
    timestamp is an unsigned integer of 64 bits; it is only stored and
    compared. *)
Record Position : Type := mkPosition {
  timestamp : N;
  slat : R;
  clat : R;
  slon : R;
  clon : R;
  vector : Vector3d
}.

Section PositionHolder.

(** [D2R], the factor from degrees to radians, is defined in
    [utils/Constants.hpp], outside these sources. *)
Variable D2R : R.

(** The constructor. *)
Definition newPosition (microEpoch : N) (latitude longitude ellipsoidalHeight : R)
  : Position :=
  mkPosition microEpoch
    (sin (latitude * D2R)) (cos (latitude * D2R))
    (sin (longitude * D2R)) (cos (longitude * D2R))
    (latitude, longitude, ellipsoidalHeight).

Definition getTimestamp (p : Position) : N := timestamp p.
Definition getLatitude (p : Position) : R := let '(la, _, _) := vector p in la.
Definition getLongitude (p : Position) : R := let '(_, lo, _) := vector p in lo.
Definition getEllipsoidalHeight (p : Position) : R := let '(_, _, h) := vector p in h.
Definition getSlat (p : Position) : R := slat p.
Definition getSlon (p : Position) : R := slon p.
Definition getClat (p : Position) : R := clat p.
Definition getClon (p : Position) : R := clon p.
Definition getVector (p : Position) : Vector3d := vector p.

Definition setTimestamp (e : N) (p : Position) : Position :=
  mkPosition e (slat p) (clat p) (slon p) (clon p) (vector p).

(** [vector(0)=l; slat=sin(vector(0) * D2R); clat=cos(vector(0) * D2R);] *)
Definition setLatitude (l : R) (p : Position) : Position :=
  mkPosition (timestamp p) (sin (l * D2R)) (cos (l * D2R)) (slon p) (clon p)
    (l, getLongitude p, getEllipsoidalHeight p).

(** [vector(1)=l; slon=sin(vector(1) * D2R); clon=cos(vector(1) * D2R);] *)
Definition setLongitude (l : R) (p : Position) : Position :=
  mkPosition (timestamp p) (slat p) (clat p) (sin (l * D2R)) (cos (l * D2R))
    (getLatitude p, l, getEllipsoidalHeight p).

(** [vector(2)=h;] *)
Definition setEllipsoidalHeight (h : R) (p : Position) : Position :=
  mkPosition (timestamp p) (slat p) (clat p) (slon p) (clon p)
    (getLatitude p, getLongitude p, h).

(** An assignment through the reference that [getVector()] returns:
    [p.getVector() = v;] writes the vector and nothing else. *)
Definition assignVector (v : Vector3d) (p : Position) : Position :=
  mkPosition (timestamp p) (slat p) (clat p) (slon p) (clon p) v.

Definition sortByTimestamp (p1 p2 : Position) : bool :=
  (getTimestamp p1 <? getTimestamp p2)%N.

(** A call of one of the four setters. *)
Inductive SetterCall : Type :=
| SetTimestamp (e : N)
| SetLatitude (l : R)
| SetLongitude (l : R)
| SetEllipsoidalHeight (h : R).

Definition callSetter (p : Position) (c : SetterCall) : Position :=
  match c with
  | SetTimestamp e => setTimestamp e p
  | SetLatitude l => setLatitude l p
  | SetLongitude l => setLongitude l p
  | SetEllipsoidalHeight h => setEllipsoidalHeight h p
  end.

(** The calls of a list, one after the other. *)
Definition callSetters (p : Position) (cs : list SetterCall) : Position :=
  fold_left callSetter cs p.

(** The stored sines and cosines are those of the stored angles. *)
Definition trigonometryInSync (p : Position) : Prop :=
  getSlat p = sin (getLatitude p * D2R) /\
  getClat p = cos (getLatitude p * D2R) /\
  getSlon p = sin (getLongitude p * D2R) /\
  getClon p = cos (getLongitude p * D2R).

(** The latitude in force after the calls [cs], from the latitude [l0]
    before them: that of the last [setLatitude], if there is one. *)
Fixpoint lastLatitude (l0 : R) (cs : list SetterCall) : R :=
  match cs with
  | [] => l0
  | SetLatitude l :: rest => lastLatitude l rest
  | _ :: rest => lastLatitude l0 rest
  end.

End PositionHolder.

(** ** Proof tools *)

Ltac inv H := inversion H; subst; clear H.


(** * Properties *)

(** ** Outcomes *)

Lemma bind_Ok {A B : Type} (m : outcome A) (k : A -> outcome B) (b : B) :
  bind m k = Ok b -> exists a, m = Ok a /\ k a = Ok b.
Proof.
  destruct m as [a|f]; simpl; intros H; [exists a; auto | discriminate].
Qed.

Lemma bind_Raise {A B : Type} (m : outcome A) (k : A -> outcome B) (f : failure) :
  bind m k = Raise f -> m = Raise f \/ exists a, m = Ok a /\ k a = Raise f.
Proof.
  destruct m as [a|f']; simpl; intros H.
  - right. exists a. split; [reflexivity | exact H].
  - left. inv H. reflexivity.
Qed.

Lemma mapOutcome_bind {A B C : Type} (f : B -> C) (m : outcome A) (k : A -> outcome B) :
  mapOutcome f (bind m k) = bind m (fun a => mapOutcome f (k a)).
Proof. destruct m; reflexivity. Qed.

Lemma coeff_Raise (v : VectorXd) (i : N) (f : failure) :
  coeff v i = Raise f -> f = IndexOutOfRange.
Proof.
  unfold coeff. destruct (nth_error v (N.to_nat i)); intros H; congruence.
Qed.

Lemma coeff_in_range (v : VectorXd) (i : N) :
  (N.to_nat i < length v)%nat -> exists x, coeff v i = Ok x /\ In x v.
Proof.
  intros H. unfold coeff.
  destruct (nth_error v (N.to_nat i)) as [x|] eqn:E.
  - exists x. split; [reflexivity | eapply nth_error_In; eauto].
  - apply nth_error_None in E. lia.
Qed.

Lemma coeff_In (v : VectorXd) (i : N) (x : R) :
  coeff v i = Ok x -> In x v.
Proof.
  unfold coeff. destruct (nth_error v (N.to_nat i)) as [y|] eqn:E; intros H; inv H.
  eapply nth_error_In; eauto.
Qed.

Lemma profileLayer_Raise (svp : SoundVelocityProfile) (p : R) (i : N) (f : failure) :
  profileLayer svp p i = Raise f -> f = IndexOutOfRange.
Proof.
  unfold profileLayer. intros H.
  repeat match type of H with
  | bind _ _ = Raise _ =>
      apply bind_Raise in H; destruct H as [H | [? [_ H]]];
      [eapply coeff_Raise; eassumption |]
  | (if ?c then _ else _) = _ => destruct c
  | Ok _ = Raise _ => discriminate
  end.
Qed.

Lemma transducerLayer_Raise (ping : Ping) (svp : SoundVelocityProfile) (p : R)
  (i : N) (f : failure) :
  transducerLayer ping svp p i = Raise f ->
  f = IndexOutOfRange \/
  (f = InvalidArgument (getTransducerDepth ping) (getTransducerDepth ping) /\
   coeff (getDepths svp) i = Ok (getTransducerDepth ping)).
Proof.
  unfold transducerLayer. intros H.
  apply bind_Raise in H. destruct H as [H | [z1 [Hz H]]].
  { left. eapply coeff_Raise; eauto. }
  apply bind_Raise in H. destruct H as [H | [c1 [Hc H]]].
  { left. eapply coeff_Raise; eauto. }
  apply bind_Raise in H. destruct H as [H | [g [Hg H]]].
  - unfold soundSpeedGradient in H.
    destruct (Req_dec_T z1 (getTransducerDepth ping)) as [E|E]; [|discriminate].
    inv H. right. split; [reflexivity | assumption].
  - destruct (Rlt_dec (Rabs g) gradientEpsilon); discriminate.
Qed.

(** ** The layer walk *)

Section Walk.

Variable sonar2cartesian : R -> R -> R -> Vector3d.
Variable ping : Ping.
Variable svp : SoundVelocityProfile.
Variable boresightMatrix imu2nav : Matrix3d.

Local Abbreviation p := (snellConstant sonar2cartesian ping boresightMatrix imu2nav).
Local Abbreviation walk := (layerWalk sonar2cartesian ping svp boresightMatrix imu2nav).
Local Abbreviation planarWalk :=
  (planarLayerWalk sonar2cartesian ping svp boresightMatrix imu2nav).
Local Abbreviation guard := (walkGuard ping svp).
Local Abbreviation budgetOf := (walkBudget svp).

Lemma walkGuard_index (st : RayState) :
  guard st = true -> (currentLayerIndex st < sizeMinusOne svp)%N.
Proof.
  unfold walkGuard. intros H. apply andb_prop in H. destruct H as [_ H].
  apply N.ltb_lt in H. exact H.
Qed.

Lemma walkGuard_fits (st : RayState) :
  guard st = true ->
  cumulativeRaytraceTime st + currentLayerRaytraceTime st <= oneWayTravelTime ping.
Proof.
  unfold walkGuard, fits. intros H. apply andb_prop in H. destruct H as [H _].
  destruct (Rle_dec _ _); [assumption | discriminate].
Qed.

Lemma fits_true (st : RayState) :
  fits ping st = true <->
  cumulativeRaytraceTime st + currentLayerRaytraceTime st <= oneWayTravelTime ping.
Proof.
  unfold fits. destruct (Rle_dec _ _); split; intros; auto; discriminate.
Qed.

Lemma fits_false (st : RayState) :
  fits ping st = false <->
  oneWayTravelTime ping < cumulativeRaytraceTime st + currentLayerRaytraceTime st.
Proof.
  unfold fits. destruct (Rle_dec _ _); split; intros; auto; try discriminate; lra.
Qed.

(** One pass through the body either leaves the loop or moves to the next
    layer, and the walk goes on from there. *)
Lemma layerWalk_body (n : nat) (st : RayState) :
  guard st = true ->
  walk (S n) st =
    (s <- profileLayer svp p (currentLayerIndex st) ;;
     if fits ping (setCurrentLayer st s)
     then walk n (accumulate (nextLayer (setCurrentLayer st s)))
     else Ok (setCurrentLayer st s)).
Proof. intros H. simpl. rewrite H. reflexivity. Qed.

Lemma layerWalk_exit (n : nat) (st : RayState) :
  guard st = false -> walk n st = Ok st.
Proof. intros H. destruct n; simpl; rewrite H; reflexivity. Qed.

Lemma walkBudget_next (st : RayState) (s : LayerStep) :
  guard st = true ->
  S (budgetOf (accumulate (nextLayer (setCurrentLayer st s)))) = budgetOf st.
Proof.
  intros H. apply walkGuard_index in H. unfold walkBudget. simpl. lia.
Qed.

(** The budget [svp.getSize()-1 - currentLayerIndex] is never exhausted. *)
Lemma layerWalk_within_budget (n : nat) :
  forall st, (budgetOf st <= n)%nat -> walk n st <> Raise IterationBudgetExceeded.
Proof.
  induction n as [|n IH]; intros st Hb.
  - simpl. destruct (guard st) eqn:G; [|discriminate].
    apply walkGuard_index in G. unfold walkBudget in Hb. lia.
  - destruct (guard st) eqn:G; [|rewrite layerWalk_exit by assumption; discriminate].
    rewrite layerWalk_body by assumption.
    destruct (profileLayer svp p (currentLayerIndex st)) as [s|f] eqn:E; simpl.
    + destruct (fits ping (setCurrentLayer st s)); [|discriminate].
      apply IH. pose proof (walkBudget_next st s G). lia.
    + apply profileLayer_Raise in E. subst f. discriminate.
Qed.

(** A larger budget changes nothing. *)
Lemma layerWalk_budget_irrelevant (n : nat) :
  forall m st, (budgetOf st <= n)%nat -> (budgetOf st <= m)%nat ->
  walk n st = walk m st.
Proof.
  induction n as [|n IH]; intros m st Hn Hm.
  - assert (G : guard st = false).
    { destruct (guard st) eqn:G; [|reflexivity].
      apply walkGuard_index in G. unfold walkBudget in Hn. lia. }
    rewrite !layerWalk_exit by assumption. reflexivity.
  - destruct (guard st) eqn:G; [|rewrite !layerWalk_exit by assumption; reflexivity].
    destruct m as [|m].
    { apply walkGuard_index in G. unfold walkBudget in Hm. lia. }
    rewrite !layerWalk_body by assumption.
    destruct (profileLayer svp p (currentLayerIndex st)) as [s|f]; simpl; [|reflexivity].
    destruct (fits ping (setCurrentLayer st s)); [|reflexivity].
    pose proof (walkBudget_next st s G). apply IH; lia.
Qed.

(** The walk never moves past the last sample. *)
Lemma layerWalk_index (n : nat) :
  forall st st', walk n st = Ok st' ->
  (currentLayerIndex st <= currentLayerIndex st')%N /\
  ((currentLayerIndex st' <= sizeMinusOne svp)%N \/
   currentLayerIndex st' = currentLayerIndex st).
Proof.
  induction n as [|n IH]; intros st st' H.
  - simpl in H. destruct (guard st); inv H. split; [lia | right; reflexivity].
  - destruct (guard st) eqn:G.
    + rewrite layerWalk_body in H by assumption.
      apply bind_Ok in H. destruct H as [s [_ H]].
      pose proof (walkGuard_index st G) as Hi.
      destruct (fits ping (setCurrentLayer st s)).
      * apply IH in H. simpl in H. destruct H as [H1 H2].
        split; [lia | left; lia].
      * inv H. simpl. split; [lia | right; reflexivity].
    + rewrite layerWalk_exit in H by assumption. inv H.
      split; [lia | right; reflexivity].
Qed.

(** *** The planar walk is the 3D walk with the two output vectors added *)

Lemma walkGuard_true (st : RayState) :
  cumulativeRaytraceTime st + currentLayerRaytraceTime st <= oneWayTravelTime ping ->
  (currentLayerIndex st < sizeMinusOne svp)%N ->
  guard st = true.
Proof.
  intros H1 H2. unfold walkGuard.
  rewrite (proj2 (fits_true st) H1). apply N.ltb_lt in H2. rewrite H2. reflexivity.
Qed.

Lemma walkGuard_last (st : RayState) :
  (sizeMinusOne svp <= currentLayerIndex st)%N -> guard st = false.
Proof.
  intros H. unfold walkGuard. apply N.ltb_ge in H. rewrite H.
  apply andb_false_r.
Qed.

Lemma planarLayerWalk_body (n : nat) (pst : PlanarState) :
  guard (ray pst) = true ->
  planarWalk (S n) pst =
    (s <- profileLayer svp p (currentLayerIndex (ray pst)) ;;
     if fits ping (setCurrentLayer (ray pst) s)
     then planarWalk n
            (pushLayer (accumulate (nextLayer (setCurrentLayer (ray pst) s)))
               (layerRays pst) (layerTravelTimes pst))
     else Ok (mkPlanarState (setCurrentLayer (ray pst) s)
                (layerRays pst) (layerTravelTimes pst))).
Proof. intros H. simpl. rewrite H. reflexivity. Qed.

Lemma planarLayerWalk_exit (n : nat) (pst : PlanarState) :
  guard (ray pst) = false -> planarWalk n pst = Ok pst.
Proof. intros H. destruct n; simpl; rewrite H; reflexivity. Qed.

Lemma planarLayerWalk_ray (n : nat) :
  forall pst, mapOutcome ray (planarWalk n pst) = walk n (ray pst).
Proof.
  induction n as [|n IH]; intros pst; simpl.
  - destruct (guard (ray pst)); reflexivity.
  - destruct (guard (ray pst)); [|reflexivity].
    rewrite mapOutcome_bind.
    destruct (profileLayer svp p (currentLayerIndex (ray pst))) as [s|f]; simpl;
      [|reflexivity].
    destruct (fits ping (setCurrentLayer (ray pst) s)); [|reflexivity].
    rewrite IH. reflexivity.
Qed.

Lemma appended_refl (P : Vector2d -> R -> Prop) (pst : PlanarState) :
  appended P pst pst [] [].
Proof.
  unfold appended. simpl. rewrite !app_nil_r.
  repeat split; try reflexivity; try constructor; lra.
Qed.

Lemma sumR_app (l1 l2 : list R) : sumR (l1 ++ l2) = sumR l1 + sumR l2.
Proof.
  induction l1 as [|x l1 IH]; simpl; [lra | rewrite IH; lra].
Qed.

(** Every entry the walk appends is a committed layer: one segment and one
    travel time at a time, in step with the accumulators. *)
Lemma planarLayerWalk_appended (n : nat) :
  forall pst pst', planarWalk n pst = Ok pst' ->
  exists rs ts, appended (layerStepOf ping svp p) pst pst' rs ts.
Proof.
  induction n as [|n IH]; intros pst pst' H; simpl in H.
  - destruct (guard (ray pst)); inv H. exists [], []. apply appended_refl.
  - destruct (guard (ray pst)); [|inv H; exists [], []; apply appended_refl].
    apply bind_Ok in H. destruct H as [s [Es H]].
    destruct (fits ping (setCurrentLayer (ray pst) s)).
    + apply IH in H. destruct H as [rs [ts (Hr & Ht & Hl & HT & HX & HZ)]].
      simpl in *.
      exists ((deltaR s, deltaZ s) :: rs), (deltaTravelTime s :: ts).
      unfold appended. simpl.
      rewrite Hr, Ht, <- !app_assoc. simpl.
      repeat split; try reflexivity; try lra.
      constructor; [|exact Hl].
      exists s. split; [right; eexists; exact Es | split; reflexivity].
    + inv H. exists [], []. unfold appended. simpl. rewrite !app_nil_r.
      repeat split; try reflexivity; try constructor; lra.
Qed.

End Walk.

(** ** Whole traces *)

Section Trace.

Variable sonar2cartesian : R -> R -> R -> Vector3d.
Variable ping : Ping.
Variable svp : SoundVelocityProfile.
Variable boresightMatrix imu2nav : Matrix3d.

Local Abbreviation p := (snellConstant sonar2cartesian ping boresightMatrix imu2nav).
Local Abbreviation cutoff := (svpCutoffIndex ping svp).
Local Abbreviation start := (initialState ping svp).
Local Abbreviation first := (firstLayer sonar2cartesian ping svp boresightMatrix imu2nav).
Local Abbreviation planarFirst :=
  (planarFirstLayer sonar2cartesian ping svp boresightMatrix imu2nav).
Local Abbreviation walk := (layerWalk sonar2cartesian ping svp boresightMatrix imu2nav).
Local Abbreviation planarWalk :=
  (planarLayerWalk sonar2cartesian ping svp boresightMatrix imu2nav).
Local Abbreviation state3D :=
  (accumulated sonar2cartesian ping svp boresightMatrix imu2nav).
Local Abbreviation state2D :=
  (planarAccumulated sonar2cartesian ping svp boresightMatrix imu2nav).
Local Abbreviation trace3D :=
  (rayTrace sonar2cartesian ping svp boresightMatrix imu2nav).
Local Abbreviation trace2D :=
  (planarRayTrace sonar2cartesian ping svp boresightMatrix imu2nav).

Lemma planarFirstLayer_ray (rays0 : list Vector2d) (times0 : list R) :
  mapOutcome ray (planarFirst rays0 times0) = first.
Proof.
  unfold planarFirstLayer, firstLayer.
  destruct (cutoff <? getSize svp)%N; [|reflexivity].
  destruct (transducerLayer ping svp p cutoff) as [s|f]; simpl; [|reflexivity].
  destruct (fits ping (setCurrentLayer start s)); reflexivity.
Qed.

Lemma planarFirstLayer_appended (rays0 : list Vector2d) (times0 : list R)
  (pst : PlanarState) :
  planarFirst rays0 times0 = Ok pst ->
  exists rs ts,
    appended (layerStepOf ping svp p) (mkPlanarState start rays0 times0) pst rs ts.
Proof.
  unfold planarFirstLayer. intros H.
  destruct (cutoff <? getSize svp)%N; [|inv H; exists [], []; apply appended_refl].
  apply bind_Ok in H. destruct H as [s [Es H]].
  destruct (fits ping (setCurrentLayer start s)); inv H.
  - exists [(deltaR s, deltaZ s)], [deltaTravelTime s].
    unfold appended. simpl. repeat split; try reflexivity; try lra.
    constructor; [|constructor].
    exists s. split; [left; exact Es | split; reflexivity].
  - exists [], []. unfold appended. simpl. rewrite !app_nil_r.
    repeat split; try reflexivity; try constructor; lra.
Qed.

Lemma appended_trans (P : Vector2d -> R -> Prop) (a b c : PlanarState)
  (rs1 rs2 : list Vector2d) (ts1 ts2 : list R) :
  appended P a b rs1 ts1 -> appended P b c rs2 ts2 ->
  appended P a c (rs1 ++ rs2) (ts1 ++ ts2).
Proof.
  unfold appended.
  intros (Hr1 & Ht1 & Hl1 & HT1 & HX1 & HZ1) (Hr2 & Ht2 & Hl2 & HT2 & HX2 & HZ2).
  rewrite Hr2, Hr1, Ht2, Ht1, !app_assoc, !map_app, !sumR_app.
  repeat split; try reflexivity; try lra.
  apply Forall2_app; assumption.
Qed.

Lemma planarAccumulated_ray (rays0 : list Vector2d) (times0 : list R) :
  mapOutcome ray (state2D rays0 times0) = state3D.
Proof.
  unfold planarAccumulated, accumulated.
  rewrite mapOutcome_bind. rewrite <- (planarFirstLayer_ray rays0 times0).
  destruct (planarFirst rays0 times0) as [pst|f]; simpl; [|reflexivity].
  apply planarLayerWalk_ray.
Qed.

(** When the loop is left, the accumulators hold the sums of what has been
    appended to the output vectors. *)
Lemma planarAccumulated_appended (rays0 : list Vector2d) (times0 : list R)
  (pst : PlanarState) :
  state2D rays0 times0 = Ok pst ->
  exists rs ts,
    layerRays pst = rays0 ++ rs /\
    layerTravelTimes pst = times0 ++ ts /\
    Forall2 (layerStepOf ping svp p) rs ts /\
    cumulativeRaytraceTime (ray pst) = sumR ts /\
    cumulativeRayX (ray pst) = sumR (map fst rs) /\
    cumulativeRayZ (ray pst) = sumR (map snd rs).
Proof.
  unfold planarAccumulated. intros H.
  apply bind_Ok in H. destruct H as [pst1 [H1 H2]].
  apply planarFirstLayer_appended in H1. destruct H1 as [rs1 [ts1 A1]].
  apply planarLayerWalk_appended in H2. destruct H2 as [rs2 [ts2 A2]].
  pose proof (appended_trans _ _ _ _ _ _ _ _ A1 A2) as (Hr & Ht & Hl & HT & HX & HZ).
  simpl in *.
  exists (rs1 ++ rs2), (ts1 ++ ts2).
  repeat split; try assumption; lra.
Qed.

(** [rayTrace] is [planarRayTrace] followed by the re-orientation of the
    aggregate, whatever the two output vectors held on entry. *)
Lemma rayTrace_planarRayTrace (rays0 : list Vector2d) (times0 : list R) :
  trace3D =
  mapOutcome
    (fun r => reorient (sinAz sonar2cartesian ping boresightMatrix imu2nav)
                (cosAz sonar2cartesian ping boresightMatrix imu2nav) (aggregate r))
    (trace2D rays0 times0).
Proof.
  unfold rayTrace, planarRayTrace.
  rewrite <- (planarAccumulated_ray rays0 times0).
  destruct (state2D rays0 times0) as [pst|f]; simpl; [|reflexivity].
  destruct (lastLayerSpeed ping svp (ray pst)) as [c|f]; simpl; reflexivity.
Qed.

(** What a planar trace returns, in terms of the state when the loop is
    left. *)
Lemma planarRayTrace_Ok (rays0 : list Vector2d) (times0 : list R)
  (agg : Vector2d) (rays : list Vector2d) (times : list R) :
  trace2D rays0 times0 = Ok (agg, rays, times) ->
  exists pst c,
    state2D rays0 times0 = Ok pst /\
    lastLayerSpeed ping svp (ray pst) = Ok c /\
    let t := oneWayTravelTime ping - cumulativeRaytraceTime (ray pst) in
    let dzf := fst (lastLayerPropagation t c p) in
    let dxf := snd (lastLayerPropagation t c p) in
    agg = (cumulativeRayX (ray pst) + dxf, cumulativeRayZ (ray pst) + dzf) /\
    rays = layerRays pst ++ [(dxf, dzf)] /\
    times = layerTravelTimes pst ++ [t].
Proof.
  unfold planarRayTrace. intros H.
  apply bind_Ok in H. destruct H as [pst [H1 H]].
  apply bind_Ok in H. destruct H as [c [H2 H]].
  exists pst, c. unfold lastLayerPropagation in *. simpl in *. inv H.
  repeat split; assumption || reflexivity.
Qed.

End Trace.

(** ** The sample launch directions *)

Lemma sqrt_of_square (x y : R) : 0 <= y -> x = y * y -> sqrt x = y.
Proof. intros Hy ->. apply sqrt_square. exact Hy. Qed.

Lemma pair3_eq (a b c a' b' c' : R) :
  a = a' -> b = b' -> c = c' -> (a, b, c) = (a', b', c').
Proof. intros -> -> ->. reflexivity. Qed.

(** The sample instance of [sonar2cartesian] supplies unit vectors, and the
    sample orientation is a rotation. *)
Lemma sphericalBeam_unit (alongTrackAngle acrossTrackAngle : R) :
  dot3 (Samples.sphericalBeam alongTrackAngle acrossTrackAngle 1)
       (Samples.sphericalBeam alongTrackAngle acrossTrackAngle 1) = 1.
Proof.
  unfold Samples.sphericalBeam, dot3.
  pose proof (sin2_cos2 (alongTrackAngle * (PI / 180))) as Ha.
  pose proof (sin2_cos2 (acrossTrackAngle * (PI / 180))) as Hb.
  unfold Rsqr in Ha, Hb.
  set (sa := sin (alongTrackAngle * (PI / 180))) in *.
  set (ca := cos (alongTrackAngle * (PI / 180))) in *.
  set (sb := sin (acrossTrackAngle * (PI / 180))) in *.
  set (cb := cos (acrossTrackAngle * (PI / 180))) in *.
  replace (1 * sa * (1 * sa) + 1 * ca * sb * (1 * ca * sb) + 1 * ca * cb * (1 * ca * cb))
    with (sa * sa + ca * ca * (sb * sb + cb * cb)) by ring.
  rewrite Hb. lra.
Qed.

Lemma pitched_rotation (v : Vector3d) :
  dot3 (matVec Samples.pitched v) (matVec Samples.pitched v) = dot3 v v.
Proof.
  destruct v as [[x y] z]. unfold matVec, Samples.pitched, dot3. field.
Qed.

Lemma sphericalBeam_nadir : Samples.sphericalBeam 0 0 1 = (0, 0, 1).
Proof.
  unfold Samples.sphericalBeam. rewrite Rmult_0_l, sin_0, cos_0.
  apply pair3_eq; lra.
Qed.

Lemma normalize_nadir : normalize (0, 0, 1) = (0, 0, 1).
Proof.
  unfold normalize.
  replace (0 * 0 + 0 * 0 + 1 * 1) with 1 by lra.
  rewrite sqrt_1. destruct (Rlt_dec 0 1); [|reflexivity].
  apply pair3_eq; lra.
Qed.

Lemma launchVectorNav_pitched (depth time : R) :
  launchVectorNav Samples.sphericalBeam (Samples.nadirPing depth time)
    identity3 Samples.pitched = (3/5, 0, 4/5).
Proof.
  unfold launchVectorNav. simpl getAlongTrackAngle. simpl getAcrossTrackAngle.
  rewrite sphericalBeam_nadir, normalize_nadir.
  unfold matVec, identity3, Samples.pitched, dot3. apply pair3_eq; lra.
Qed.

Lemma launchVectorNav_level (depth time : R) :
  launchVectorNav Samples.sphericalBeam (Samples.nadirPing depth time)
    identity3 identity3 = (0, 0, 1).
Proof.
  unfold launchVectorNav. simpl getAlongTrackAngle. simpl getAcrossTrackAngle.
  rewrite sphericalBeam_nadir, normalize_nadir.
  unfold matVec, identity3, dot3. apply pair3_eq; lra.
Qed.

Lemma launchVectorParameters_pitched (depth time : R) :
  launchVectorParameters Samples.sphericalBeam (Samples.nadirPing depth time)
    identity3 Samples.pitched = (1, 0, asin (4/5)).
Proof.
  unfold launchVectorParameters. rewrite launchVectorNav_pitched.
  assert (E : sqrt ((3/5) ^ 2 + 0 ^ 2) = 3/5) by (apply sqrt_of_square; lra).
  rewrite E. destruct (Rlt_dec 0 (3/5)); [|exfalso; lra].
  apply pair3_eq; try reflexivity; lra.
Qed.

Lemma launchVectorParameters_level (depth time : R) :
  launchVectorParameters Samples.sphericalBeam (Samples.nadirPing depth time)
    identity3 identity3 = (0, 0, PI / 2).
Proof.
  unfold launchVectorParameters. rewrite launchVectorNav_level.
  assert (E : sqrt (0 ^ 2 + 0 ^ 2) = 0) by (apply sqrt_of_square; lra).
  rewrite E. destruct (Rlt_dec 0 0); [exfalso; lra|].
  rewrite asin_1. reflexivity.
Qed.

Lemma cos_asin_4_5 : cos (asin (4/5)) = 3/5.
Proof.
  rewrite cos_asin by lra. apply sqrt_of_square; [lra|]. unfold Rsqr. lra.
Qed.

Lemma snellConstant_pitched (depth time : R) :
  snellConstant Samples.sphericalBeam (Samples.nadirPing depth time)
    identity3 Samples.pitched = 1 / 2500.
Proof.
  unfold snellConstant, beta0. rewrite launchVectorParameters_pitched.
  simpl. rewrite cos_asin_4_5. lra.
Qed.

(** ** Launch vector geometry *)

Lemma divide_by_positive (a b : R) : 0 < b -> divide a b = Some (a / b).
Proof.
  intros H. unfold divide. destruct (Req_dec_T b 0) as [E|_]; [lra | reflexivity].
Qed.

(** C9.  When the horizontal part of the launch vector has zero magnitude,
    [launchVectorParameters] returns zero for both the sine and the cosine of
    the azimuth, and does not divide; when the magnitude is positive it
    returns [x / vNorm] and [y / vNorm].  Whatever the launch vector, neither
    output is computed by a division by zero, and both are the real numbers
    [sinAz] and [cosAz] that the traces use. *)
Theorem launchVectorParameters_azimuth
  (sonar2cartesian : R -> R -> R -> Vector3d) (ping : Ping)
  (boresightMatrix imu2nav : Matrix3d) (x y z : R) :
  launchVectorNav sonar2cartesian ping boresightMatrix imu2nav = (x, y, z) ->
  (sqrt (x ^ 2 + y ^ 2) = 0 ->
     launchVectorAzimuth sonar2cartesian ping boresightMatrix imu2nav
       = (Some 0, Some 0) /\
     divide x (sqrt (x ^ 2 + y ^ 2)) = None /\
     divide y (sqrt (x ^ 2 + y ^ 2)) = None /\
     sinAz sonar2cartesian ping boresightMatrix imu2nav = 0 /\
     cosAz sonar2cartesian ping boresightMatrix imu2nav = 0) /\
  (0 < sqrt (x ^ 2 + y ^ 2) ->
     launchVectorAzimuth sonar2cartesian ping boresightMatrix imu2nav
       = (Some (x / sqrt (x ^ 2 + y ^ 2)), Some (y / sqrt (x ^ 2 + y ^ 2))) /\
     sinAz sonar2cartesian ping boresightMatrix imu2nav = x / sqrt (x ^ 2 + y ^ 2) /\
     cosAz sonar2cartesian ping boresightMatrix imu2nav = y / sqrt (x ^ 2 + y ^ 2)) /\
  launchVectorAzimuth sonar2cartesian ping boresightMatrix imu2nav
    = (Some (sinAz sonar2cartesian ping boresightMatrix imu2nav),
       Some (cosAz sonar2cartesian ping boresightMatrix imu2nav)).
Proof.
  intros E.
  unfold launchVectorAzimuth, sinAz, cosAz, launchVectorParameters.
  rewrite E. cbn [fst snd].
  destruct (Rlt_dec 0 (sqrt (x ^ 2 + y ^ 2))) as [Hpos|Hzero].
  - rewrite !divide_by_positive by exact Hpos.
    split; [intros H; exfalso; lra|].
    split; [intros _|]; auto.
  - split.
    + intros H. rewrite H. unfold divide.
      destruct (Req_dec_T 0 0) as [_|Hne]; [|exfalso; apply Hne; reflexivity].
      auto 6.
    + split; [intros H; contradiction | reflexivity].
Qed.

Lemma launchVectorParameters_azimuth_witness :
  (launchVectorAzimuth Samples.sphericalBeam (Samples.nadirPing 0 0) identity3 identity3
     = (Some 0, Some 0) /\
   divide 0 (sqrt (0 ^ 2 + 0 ^ 2)) = None /\
   divide 0 (sqrt (0 ^ 2 + 0 ^ 2)) = None /\
   sinAz Samples.sphericalBeam (Samples.nadirPing 0 0) identity3 identity3 = 0 /\
   cosAz Samples.sphericalBeam (Samples.nadirPing 0 0) identity3 identity3 = 0) /\
  (launchVectorAzimuth Samples.sphericalBeam (Samples.nadirPing 0 0) identity3
     Samples.pitched
     = (Some (3/5 / sqrt ((3/5) ^ 2 + 0 ^ 2)), Some (0 / sqrt ((3/5) ^ 2 + 0 ^ 2))) /\
   sinAz Samples.sphericalBeam (Samples.nadirPing 0 0) identity3 Samples.pitched
     = 3/5 / sqrt ((3/5) ^ 2 + 0 ^ 2) /\
   cosAz Samples.sphericalBeam (Samples.nadirPing 0 0) identity3 Samples.pitched
     = 0 / sqrt ((3/5) ^ 2 + 0 ^ 2)).
Proof.
  split.
  - apply (launchVectorParameters_azimuth Samples.sphericalBeam
             (Samples.nadirPing 0 0) identity3 identity3 0 0 1
             (launchVectorNav_level 0 0)).
    apply sqrt_of_square; lra.
  - apply (launchVectorParameters_azimuth Samples.sphericalBeam
             (Samples.nadirPing 0 0) identity3 Samples.pitched (3/5) 0 (4/5)
             (launchVectorNav_pitched 0 0)).
    replace (sqrt ((3/5) ^ 2 + 0 ^ 2)) with (3/5); [lra|].
    symmetry. apply sqrt_of_square; lra.
Defined.

(** ** The budget of the walk, in whole traces *)

Section Budget.

Variable sonar2cartesian : R -> R -> R -> Vector3d.
Variable ping : Ping.
Variable svp : SoundVelocityProfile.
Variable boresightMatrix imu2nav : Matrix3d.

Local Abbreviation walk := (layerWalk sonar2cartesian ping svp boresightMatrix imu2nav).
Local Abbreviation planarWalk :=
  (planarLayerWalk sonar2cartesian ping svp boresightMatrix imu2nav).

Lemma planarLayerWalk_within_budget (n : nat) (pst : PlanarState) :
  (walkBudget svp (ray pst) <= n)%nat ->
  planarWalk n pst <> Raise IterationBudgetExceeded.
Proof.
  intros Hb H.
  apply (layerWalk_within_budget sonar2cartesian ping svp boresightMatrix imu2nav
           n (ray pst) Hb).
  rewrite <- planarLayerWalk_ray, H. reflexivity.
Qed.

Lemma planarLayerWalk_budget_irrelevant (n : nat) :
  forall m pst, (walkBudget svp (ray pst) <= n)%nat ->
  (walkBudget svp (ray pst) <= m)%nat ->
  planarWalk n pst = planarWalk m pst.
Proof.
  induction n as [|n IH]; intros m pst Hn Hm.
  - assert (G : walkGuard ping svp (ray pst) = false).
    { destruct (walkGuard ping svp (ray pst)) eqn:G; [|reflexivity].
      apply walkGuard_index in G. unfold walkBudget in Hn. lia. }
    destruct m; simpl; rewrite G; reflexivity.
  - destruct (walkGuard ping svp (ray pst)) eqn:G.
    + destruct m as [|m].
      { apply walkGuard_index in G. unfold walkBudget in Hm. lia. }
      simpl. rewrite G.
      destruct (profileLayer svp _ (currentLayerIndex (ray pst))) as [s|f]; simpl;
        [|reflexivity].
      destruct (fits ping (setCurrentLayer (ray pst) s)); [|reflexivity].
      pose proof (walkBudget_next ping svp (ray pst) s G).
      apply IH; simpl; lia.
    + destruct m; simpl; rewrite G; reflexivity.
Qed.

Lemma firstLayer_index (st : RayState) :
  firstLayer sonar2cartesian ping svp boresightMatrix imu2nav = Ok st ->
  currentLayerIndex st = svpCutoffIndex ping svp.
Proof.
  unfold firstLayer. intros H.
  destruct (svpCutoffIndex ping svp <? getSize svp)%N; [|inv H; reflexivity].
  apply bind_Ok in H. destruct H as [s [_ H]].
  destruct (fits ping _); inv H; reflexivity.
Qed.

Lemma accumulated_within_budget :
  accumulated sonar2cartesian ping svp boresightMatrix imu2nav
    <> Raise IterationBudgetExceeded.
Proof.
  unfold accumulated. intros H. apply bind_Raise in H.
  destruct H as [H | [st [_ H]]].
  - unfold firstLayer in H.
    destruct (svpCutoffIndex ping svp <? getSize svp)%N; [|discriminate].
    apply bind_Raise in H. destruct H as [H | [s [_ H]]].
    + apply transducerLayer_Raise in H. destruct H as [H | [H _]]; discriminate.
    + destruct (fits ping _); discriminate.
  - revert H. apply layerWalk_within_budget. lia.
Qed.

Lemma rayTrace_within_budget :
  rayTrace sonar2cartesian ping svp boresightMatrix imu2nav
    <> Raise IterationBudgetExceeded.
Proof.
  unfold rayTrace. intros H. apply bind_Raise in H.
  destruct H as [H | [st [_ H]]]; [exact (accumulated_within_budget H)|].
  apply bind_Raise in H. destruct H as [H | [c [_ H]]].
  - unfold lastLayerSpeed in H.
    destruct (svpCutoffIndex ping svp <? getSize svp)%N; [|discriminate].
    apply coeff_Raise in H. discriminate.
  - discriminate.
Qed.

Lemma planarRayTrace_within_budget (rays0 : list Vector2d) (times0 : list R) :
  planarRayTrace sonar2cartesian ping svp boresightMatrix imu2nav rays0 times0
    <> Raise IterationBudgetExceeded.
Proof.
  intros H. apply rayTrace_within_budget.
  rewrite (rayTrace_planarRayTrace _ _ _ _ _ rays0 times0), H. reflexivity.
Qed.

End Budget.

(** C8.  Every trace terminates, and the loop body is entered at most
    [svp.getSize()-1] minus the cutoff index times: from a state at the cutoff
    index, where both variants start the loop, the walk never exhausts that
    budget, and a larger budget gives the same result; a pass through the
    body either leaves the loop or goes on from the next index, which is
    still at most [svp.getSize()-1]; and neither [rayTrace] nor
    [planarRayTrace] ever ends on the budget. *)
Theorem layerWalk_bounded
  (sonar2cartesian : R -> R -> R -> Vector3d) (ping : Ping)
  (svp : SoundVelocityProfile) (boresightMatrix imu2nav : Matrix3d)
  (st : RayState) (rays : list Vector2d) (times : list R) :
  let bound := N.to_nat (sizeMinusOne svp - svpCutoffIndex ping svp) in
  let walk := layerWalk sonar2cartesian ping svp boresightMatrix imu2nav in
  let planarWalk := planarLayerWalk sonar2cartesian ping svp boresightMatrix imu2nav in
  currentLayerIndex st = svpCutoffIndex ping svp ->
  (forall st0, firstLayer sonar2cartesian ping svp boresightMatrix imu2nav = Ok st0 ->
     currentLayerIndex st0 = svpCutoffIndex ping svp) /\
  (walk bound st <> Raise IterationBudgetExceeded /\
   forall k, walk (bound + k)%nat st = walk bound st) /\
  (planarWalk bound (mkPlanarState st rays times) <> Raise IterationBudgetExceeded /\
   forall k, planarWalk (bound + k)%nat (mkPlanarState st rays times)
             = planarWalk bound (mkPlanarState st rays times)) /\
  (forall n st1, walkGuard ping svp st1 = true ->
     (exists st2, walk (S n) st1 = walk n st2 /\
                  currentLayerIndex st2 = (currentLayerIndex st1 + 1)%N /\
                  (currentLayerIndex st2 <= sizeMinusOne svp)%N) \/
     (exists st2, walk (S n) st1 = Ok st2 /\
                  currentLayerIndex st2 = currentLayerIndex st1) \/
     walk (S n) st1 = Raise IndexOutOfRange) /\
  rayTrace sonar2cartesian ping svp boresightMatrix imu2nav
    <> Raise IterationBudgetExceeded /\
  planarRayTrace sonar2cartesian ping svp boresightMatrix imu2nav rays times
    <> Raise IterationBudgetExceeded.
Proof.
  intros bound walk planarWalk Hi.
  assert (Hb : walkBudget svp st = bound).
  { unfold walkBudget, bound. rewrite Hi. reflexivity. }
  repeat split.
  - intros st0 H0. eapply firstLayer_index. exact H0.
  - apply layerWalk_within_budget. lia.
  - intros k. apply layerWalk_budget_irrelevant; lia.
  - apply planarLayerWalk_within_budget. simpl. lia.
  - intros k. apply planarLayerWalk_budget_irrelevant; simpl; lia.
  - intros n st1 G. unfold walk. rewrite layerWalk_body by assumption.
    destruct (profileLayer svp _ (currentLayerIndex st1)) as [s|f] eqn:E; simpl.
    + destruct (fits ping (setCurrentLayer st1 s)).
      * left. exists (accumulate (nextLayer (setCurrentLayer st1 s))).
        apply walkGuard_index in G. simpl. repeat split; try reflexivity. lia.
      * right. left. exists (setCurrentLayer st1 s). split; reflexivity.
    + right. right. apply profileLayer_Raise in E. subst f. reflexivity.
  - apply rayTrace_within_budget.
  - apply planarRayTrace_within_budget.
Qed.

Lemma layerWalk_bounded_witness :
  rayTrace Samples.sphericalBeam (Samples.nadirPing 0 (1/20)) Samples.twoLayers
    identity3 Samples.pitched <> Raise IterationBudgetExceeded.
Proof.
  apply (layerWalk_bounded Samples.sphericalBeam (Samples.nadirPing 0 (1/20))
           Samples.twoLayers identity3 Samples.pitched
           (initialState (Samples.nadirPing 0 (1/20)) Samples.twoLayers) [] []).
  reflexivity.
Defined.

(** ** The sample traces *)

Lemma layerStep_eq (a b c a' b' c' : R) :
  a = a' -> b = b' -> c = c' -> mkLayerStep a b c = mkLayerStep a' b' c'.
Proof. intros -> -> ->. reflexivity. Qed.

(** At 1500 m/s, with the Snell constant of the pitched nadir beam, the
    grazing angle has cosine 3/5 and sine 4/5. *)
Lemma sinBn_pitched : sqrt (1 - (1 / 2500 * 1500) ^ 2) = 4/5.
Proof. apply sqrt_of_square; lra. Qed.

Lemma constantCelerityRayTracing_pitched (z0 z1 : R) :
  constantCelerityRayTracing z0 z1 1500 (1 / 2500)
  = mkLayerStep (z1 - z0) (3/4 * (z1 - z0)) ((z1 - z0) / 1200).
Proof.
  unfold constantCelerityRayTracing. rewrite sinBn_pitched.
  apply layerStep_eq; lra.
Qed.

Lemma lastLayerPropagation_pitched (t : R) :
  lastLayerPropagation t 1500 (1 / 2500) = (1200 * t, 900 * t).
Proof.
  unfold lastLayerPropagation. rewrite sinBn_pitched. f_equal; lra.
Qed.

Lemma Rabs_zero_gradient (c z1 z0 : R) : Rabs ((c - c) / (z1 - z0)) < gradientEpsilon.
Proof.
  replace ((c - c) / (z1 - z0)) with 0 by (unfold Rdiv; ring).
  rewrite Rabs_R0. unfold gradientEpsilon. lra.
Qed.

Lemma Rabs_0_epsilon : Rabs 0 < gradientEpsilon.
Proof. rewrite Rabs_R0. unfold gradientEpsilon. lra. Qed.

Lemma svpCutoffIndex_twoLayers (time : R) :
  svpCutoffIndex (Samples.nadirPing 0 time) Samples.twoLayers = 0%N.
Proof.
  unfold svpCutoffIndex. simpl. destruct (Rle_dec 0 12); [reflexivity | exfalso; lra].
Qed.

Lemma transducerLayer_twoLayers (time : R) :
  transducerLayer (Samples.nadirPing 0 time) Samples.twoLayers (1 / 2500) 0
  = Ok (mkLayerStep 12 9 (1 / 100)).
Proof.
  unfold transducerLayer, soundSpeedGradient. simpl.
  destruct (Req_dec_T 12 0); [exfalso; lra|]. simpl.
  destruct (Rlt_dec _ gradientEpsilon) as [_|H];
    [|exfalso; apply H; apply Rabs_zero_gradient].
  rewrite constantCelerityRayTracing_pitched. f_equal. apply layerStep_eq; lra.
Qed.

Lemma profileLayer_twoLayers :
  profileLayer Samples.twoLayers (1 / 2500) 0 = Ok (mkLayerStep 12 9 (1 / 100)).
Proof.
  unfold profileLayer. simpl.
  destruct (Rlt_dec (Rabs 0) gradientEpsilon) as [_|H];
    [|exfalso; apply H; apply Rabs_0_epsilon].
  rewrite constantCelerityRayTracing_pitched. f_equal. apply layerStep_eq; lra.
Qed.

Lemma planarRayTrace_twoLayers (T : R) (rays0 : list Vector2d) (times0 : list R) :
  1 / 25 <= T ->
  planarRayTrace Samples.sphericalBeam (Samples.nadirPing 0 T) Samples.twoLayers
    identity3 Samples.pitched rays0 times0
  = Ok ((18 + 900 * (T / 2 - 1 / 50), 24 + 1200 * (T / 2 - 1 / 50)),
        rays0 ++ [(9, 12); (9, 12); (900 * (T / 2 - 1 / 50), 1200 * (T / 2 - 1 / 50))],
        times0 ++ [1 / 100; 1 / 100; T / 2 - 1 / 50]).
Proof.
  intros HT.
  unfold planarRayTrace, planarAccumulated, planarFirstLayer, initialState.
  rewrite svpCutoffIndex_twoLayers, snellConstant_pitched.
  change (0 <? getSize Samples.twoLayers)%N with true. cbv iota.
  rewrite transducerLayer_twoLayers. cbn [bind].
  rewrite (proj2 (fits_true _ _)) by (unfold oneWayTravelTime; simpl; lra).
  cbn [bind]. unfold walkBudget.
  change (N.to_nat _) with 1%nat.
  rewrite planarLayerWalk_body
    by (apply walkGuard_true; [unfold oneWayTravelTime; simpl; lra | reflexivity]).
  rewrite snellConstant_pitched.
  change (currentLayerIndex _) with 0%N.
  rewrite profileLayer_twoLayers. cbn [bind].
  rewrite (proj2 (fits_true _ _)) by (unfold oneWayTravelTime; simpl; lra).
  rewrite planarLayerWalk_exit by (apply walkGuard_last; simpl; reflexivity || lia).
  cbn [bind]. unfold lastLayerSpeed. rewrite svpCutoffIndex_twoLayers.
  change (0 <? getSize Samples.twoLayers)%N with true. cbv iota.
  cbn [ray pushLayer accumulate nextLayer setCurrentLayer layerRays layerTravelTimes
       currentLayerIndex currentLayerRaytraceTime currentLayerDeltaZ currentLayerDeltaR
       cumulativeRaytraceTime cumulativeRayX cumulativeRayZ
       deltaZ deltaR deltaTravelTime].
  change (coeff (getSpeeds Samples.twoLayers) (0 + 1)) with (Ok 1500). cbn [bind].
  rewrite lastLayerPropagation_pitched. unfold oneWayTravelTime. simpl getTwoWayTravelTime.
  rewrite <- !app_assoc. simpl app.
  repeat (f_equal; try lra).
Qed.


(** ** Time conservation *)

Lemma Forall2_second {A B : Type} (P : A -> B -> Prop) (l : list A) (l' : list B) :
  Forall2 P l l' -> Forall (fun b => exists a, P a b) l'.
Proof.
  induction 1; constructor; [eexists; eassumption | assumption].
Qed.

(** C1.  In every completed trace the travel times of the committed layers
    and the remaining time of the last layer add up to the one-way travel
    time, half of [getTwoWayTravelTime()]: [planarRayTrace] appends to
    [layerTravelTimes] the times of the committed layer steps followed by the
    remaining time; their sum is the target, exactly and so within 1e-9; the
    committed times add up to [cumulativeRaytraceTime], which [rayTrace]
    reaches as well, with the same state when the loop is left.  The sum of
    all entries of [layerTravelTimes] is the sum of what it held on entry
    plus the target: the target itself when it is empty on entry. *)
Theorem time_conservation
  (sonar2cartesian : R -> R -> R -> Vector3d) (ping : Ping)
  (svp : SoundVelocityProfile) (boresightMatrix imu2nav : Matrix3d)
  (rays0 : list Vector2d) (times0 : list R)
  (agg : Vector2d) (rays : list Vector2d) (times : list R) :
  planarRayTrace sonar2cartesian ping svp boresightMatrix imu2nav rays0 times0
    = Ok (agg, rays, times) ->
  exists (st : RayState) (committed : list R) (lastLayerTraveTime : R),
    accumulated sonar2cartesian ping svp boresightMatrix imu2nav = Ok st /\
    succeeds (rayTrace sonar2cartesian ping svp boresightMatrix imu2nav) /\
    times = times0 ++ committed ++ [lastLayerTraveTime] /\
    Forall (fun t => exists r,
              layerStepOf ping svp
                (snellConstant sonar2cartesian ping boresightMatrix imu2nav) r t)
      committed /\
    cumulativeRaytraceTime st = sumR committed /\
    lastLayerTraveTime = oneWayTravelTime ping - cumulativeRaytraceTime st /\
    sumR committed + lastLayerTraveTime = getTwoWayTravelTime ping / 2 /\
    Rabs (sumR (committed ++ [lastLayerTraveTime]) - getTwoWayTravelTime ping / 2)
      <= 1e-9 /\
    sumR times = sumR times0 + getTwoWayTravelTime ping / 2.
Proof.
  intros H.
  pose proof (rayTrace_planarRayTrace sonar2cartesian ping svp boresightMatrix
                imu2nav rays0 times0) as H3.
  rewrite H in H3. simpl in H3.
  apply planarRayTrace_Ok in H. destruct H as [pst [c (Hacc & _ & _ & _ & Ht)]].
  pose proof (planarAccumulated_ray sonar2cartesian ping svp boresightMatrix
                imu2nav rays0 times0) as Hray.
  rewrite Hacc in Hray. simpl in Hray.
  apply planarAccumulated_appended in Hacc.
  destruct Hacc as [rs [ts (_ & Hts & Hsteps & HT & _ & _)]].
  exists (ray pst), ts, (oneWayTravelTime ping - cumulativeRaytraceTime (ray pst)).
  assert (Hsum : sumR ts + (oneWayTravelTime ping - cumulativeRaytraceTime (ray pst))
                 = getTwoWayTravelTime ping / 2).
  { rewrite HT. unfold oneWayTravelTime. lra. }
  assert (Hall : sumR (ts ++ [oneWayTravelTime ping - cumulativeRaytraceTime (ray pst)])
                 = getTwoWayTravelTime ping / 2).
  { rewrite sumR_app. simpl. lra. }
  split; [symmetry; exact Hray|].
  split; [eexists; exact H3|].
  split; [rewrite Ht, Hts, <- app_assoc; reflexivity|].
  split; [eapply Forall2_second; exact Hsteps|].
  split; [exact HT|]. split; [reflexivity|]. split; [exact Hsum|].
  split.
  - rewrite Hall. replace (_ - _) with 0 by lra. rewrite Rabs_R0. lra.
  - rewrite Ht, Hts, <- app_assoc, sumR_app, Hall. reflexivity.
Qed.

Lemma time_conservation_witness :
  exists (st : RayState) (committed : list R) (lastLayerTraveTime : R),
    accumulated Samples.sphericalBeam (Samples.nadirPing 0 (1/20)) Samples.twoLayers
      identity3 Samples.pitched = Ok st /\
    succeeds (rayTrace Samples.sphericalBeam (Samples.nadirPing 0 (1/20))
                Samples.twoLayers identity3 Samples.pitched) /\
    [1 / 100; 1 / 100; 1 / 20 / 2 - 1 / 50] = [] ++ committed ++ [lastLayerTraveTime] /\
    Forall (fun t => exists r,
              layerStepOf (Samples.nadirPing 0 (1/20)) Samples.twoLayers
                (snellConstant Samples.sphericalBeam (Samples.nadirPing 0 (1/20))
                   identity3 Samples.pitched) r t)
      committed /\
    cumulativeRaytraceTime st = sumR committed /\
    lastLayerTraveTime
      = oneWayTravelTime (Samples.nadirPing 0 (1/20)) - cumulativeRaytraceTime st /\
    sumR committed + lastLayerTraveTime
      = getTwoWayTravelTime (Samples.nadirPing 0 (1/20)) / 2 /\
    Rabs (sumR (committed ++ [lastLayerTraveTime])
          - getTwoWayTravelTime (Samples.nadirPing 0 (1/20)) / 2) <= 1e-9 /\
    sumR [1 / 100; 1 / 100; 1 / 20 / 2 - 1 / 50]
      = sumR [] + getTwoWayTravelTime (Samples.nadirPing 0 (1/20)) / 2.
Proof.
  apply (time_conservation Samples.sphericalBeam (Samples.nadirPing 0 (1/20))
           Samples.twoLayers identity3 Samples.pitched [] []
           (18 + 900 * (1 / 20 / 2 - 1 / 50), 24 + 1200 * (1 / 20 / 2 - 1 / 50))
           [(9, 12); (9, 12);
            (900 * (1 / 20 / 2 - 1 / 50), 1200 * (1 / 20 / 2 - 1 / 50))]
           [1 / 100; 1 / 100; 1 / 20 / 2 - 1 / 50]).
  apply (planarRayTrace_twoLayers (1/20) [] []). lra.
Defined.

(** ** The planar trace and its output vectors *)

(** C10.  A successful [planarRayTrace] appends the same number of entries to
    [layerRays] and to [layerTravelTimes], and at least one: the segments and
    times of the committed layer steps, then the segment that
    [lastLayerPropagation] computes for the remaining travel time, with that
    time, whatever it is.  When the remaining time is zero the last segment
    is the zero vector; the sample trace whose one-way travel time is spent
    exactly on its two committed layers ends on such entries. *)
Theorem planarRayTrace_appends :
  (forall (sonar2cartesian : R -> R -> R -> Vector3d) (ping : Ping)
     (svp : SoundVelocityProfile) (boresightMatrix imu2nav : Matrix3d)
     (rays0 : list Vector2d) (times0 : list R)
     (agg : Vector2d) (rays : list Vector2d) (times : list R),
   planarRayTrace sonar2cartesian ping svp boresightMatrix imu2nav rays0 times0
     = Ok (agg, rays, times) ->
   exists (rs : list Vector2d) (ts : list R) (c_lastLayer : R),
     let p := snellConstant sonar2cartesian ping boresightMatrix imu2nav in
     let lastLayerTraveTime := oneWayTravelTime ping - sumR ts in
     let step := lastLayerPropagation lastLayerTraveTime c_lastLayer p in
     rays = rays0 ++ rs ++ [(snd step, fst step)] /\
     times = times0 ++ ts ++ [lastLayerTraveTime] /\
     Forall2 (layerStepOf ping svp p) rs ts /\
     length rs = length ts /\
     length rays = (length rays0 + (length rs + 1))%nat /\
     length times = (length times0 + (length rs + 1))%nat /\
     (lastLayerTraveTime = 0 -> (snd step, fst step) = (0, 0))) /\
  (exists agg,
     planarRayTrace Samples.sphericalBeam (Samples.nadirPing 0 (1/25))
       Samples.twoLayers identity3 Samples.pitched [] []
     = Ok (agg, [(9, 12); (9, 12); (0, 0)], [1 / 100; 1 / 100; 0])).
Proof.
  split.
  - intros sonar2cartesian ping svp boresightMatrix imu2nav rays0 times0
      agg rays times H.
    apply planarRayTrace_Ok in H.
    destruct H as [pst [c (Hacc & _ & _ & Hr & Ht)]].
    apply planarAccumulated_appended in Hacc.
    destruct Hacc as [rs [ts (Hrs & Hts & Hsteps & HT & _ & _)]].
    pose proof (Forall2_length Hsteps) as Hl.
    exists rs, ts, c. cbv zeta. rewrite <- HT.
    split; [rewrite Hr, Hrs, <- app_assoc; reflexivity|].
    split; [rewrite Ht, Hts, <- app_assoc; reflexivity|].
    split; [exact Hsteps|].
    split; [exact Hl|].
    split; [rewrite Hr, Hrs, !length_app; simpl; lia|].
    split; [rewrite Ht, Hts, !length_app; simpl; lia|].
    intros E. unfold lastLayerPropagation. simpl. rewrite E. f_equal; ring.
  - eexists. rewrite planarRayTrace_twoLayers by lra. simpl app.
    repeat (f_equal; try lra).
Qed.

Lemma planarRayTrace_appends_witness :
  exists (rs : list Vector2d) (ts : list R) (c_lastLayer : R),
    let p :=
      snellConstant Samples.sphericalBeam (Samples.nadirPing 0 (1/20)) identity3
        Samples.pitched in
    let lastLayerTraveTime := oneWayTravelTime (Samples.nadirPing 0 (1/20)) - sumR ts in
    let step := lastLayerPropagation lastLayerTraveTime c_lastLayer p in
    [(9, 12); (9, 12); (900 * (1 / 20 / 2 - 1 / 50), 1200 * (1 / 20 / 2 - 1 / 50))]
      = [] ++ rs ++ [(snd step, fst step)] /\
    [1 / 100; 1 / 100; 1 / 20 / 2 - 1 / 50] = [] ++ ts ++ [lastLayerTraveTime] /\
    Forall2 (layerStepOf (Samples.nadirPing 0 (1/20)) Samples.twoLayers p) rs ts /\
    length rs = length ts /\
    length [(9, 12); (9, 12);
            (900 * (1 / 20 / 2 - 1 / 50), 1200 * (1 / 20 / 2 - 1 / 50))]
      = (length (@nil Vector2d) + (length rs + 1))%nat /\
    length [1 / 100; 1 / 100; 1 / 20 / 2 - 1 / 50]
      = (length (@nil R) + (length rs + 1))%nat /\
    (lastLayerTraveTime = 0 -> (snd step, fst step) = (0, 0)).
Proof.
  apply (proj1 planarRayTrace_appends Samples.sphericalBeam
           (Samples.nadirPing 0 (1/20)) Samples.twoLayers identity3 Samples.pitched
           [] []
           (18 + 900 * (1 / 20 / 2 - 1 / 50), 24 + 1200 * (1 / 20 / 2 - 1 / 50))).
  apply (planarRayTrace_twoLayers (1/20) [] []). lra.
Defined.

(** ** The 3D result against the planar aggregate *)



Lemma azimuth_unit
  (sonar2cartesian : R -> R -> R -> Vector3d) (ping : Ping)
  (boresightMatrix imu2nav : Matrix3d) (x y z : R) :
  launchVectorNav sonar2cartesian ping boresightMatrix imu2nav = (x, y, z) ->
  0 < sqrt (x ^ 2 + y ^ 2) ->
  sinAz sonar2cartesian ping boresightMatrix imu2nav ^ 2
  + cosAz sonar2cartesian ping boresightMatrix imu2nav ^ 2 = 1.
Proof.
  intros E Hn. unfold sinAz, cosAz, launchVectorParameters. rewrite E. cbn [fst snd].
  destruct (Rlt_dec 0 (sqrt (x ^ 2 + y ^ 2))); [|contradiction].
  assert (Hs : sqrt (x ^ 2 + y ^ 2) * sqrt (x ^ 2 + y ^ 2) = x ^ 2 + y ^ 2).
  { apply sqrt_sqrt. nra. }
  set (n := sqrt (x ^ 2 + y ^ 2)) in *.
  assert (Hn0 : n <> 0) by lra.
  replace ((x / n) ^ 2 + (y / n) ^ 2) with ((x ^ 2 + y ^ 2) / (n * n)) by (field; exact Hn0).
  rewrite Hs. field. nra.
Qed.


Section Vertical.

Variable sonar2cartesian : R -> R -> R -> Vector3d.
Variable ping : Ping.
Variable svp : SoundVelocityProfile.
Variable boresightMatrix imu2nav : Matrix3d.

Local Abbreviation p := (snellConstant sonar2cartesian ping boresightMatrix imu2nav).
Local Abbreviation walk := (layerWalk sonar2cartesian ping svp boresightMatrix imu2nav).

Hypothesis no_snell : p = 0.








End Vertical.





(** ** Landing exactly on the target time *)





(** ** Transducer below the profile *)

Lemma sizeMinusOne_nonempty (svp : SoundVelocityProfile) :
  (1 <= getSize svp)%N -> sizeMinusOne svp = (getSize svp - 1)%N.
Proof.
  intros H. unfold sizeMinusOne.
  destruct (getSize svp =? 0)%N eqn:E; [|reflexivity].
  apply N.eqb_eq in E. lia.
Qed.

Lemma snell_surface
  (sonar2cartesian : R -> R -> R -> Vector3d) (ping : Ping)
  (boresightMatrix imu2nav : Matrix3d) :
  getSurfaceSoundSpeed ping <> 0 ->
  snellConstant sonar2cartesian ping boresightMatrix imu2nav * getSurfaceSoundSpeed ping
  = cos (beta0 sonar2cartesian ping boresightMatrix imu2nav).
Proof. intros H. unfold snellConstant. field. exact H. Qed.

(** C5.  When the lookup returns an index that is not below [getSize()] (the
    transducer is deeper than every sample of a profile that has at least
    one), the trace skips the transducer-layer step, never enters the loop,
    and hands the whole one-way travel time and the surface sound speed to
    [lastLayerPropagation]: the planar aggregate is that single step, the
    only entries appended are that step and that time, and the 3D result is
    its re-orientation.  For a non-zero surface sound speed the step is
    straight-line propagation at that speed, at the launch grazing angle, for
    the one-way travel time. *)
Theorem transducer_below_profile
  (sonar2cartesian : R -> R -> R -> Vector3d) (ping : Ping)
  (svp : SoundVelocityProfile) (boresightMatrix imu2nav : Matrix3d)
  (rays0 : list Vector2d) (times0 : list R) :
  let p := snellConstant sonar2cartesian ping boresightMatrix imu2nav in
  let step :=
    lastLayerPropagation (oneWayTravelTime ping) (getSurfaceSoundSpeed ping) p in
  (1 <= getSize svp)%N ->
  (getSize svp <= svpCutoffIndex ping svp)%N ->
  firstLayer sonar2cartesian ping svp boresightMatrix imu2nav
    = Ok (initialState ping svp) /\
  accumulated sonar2cartesian ping svp boresightMatrix imu2nav
    = Ok (initialState ping svp) /\
  lastLayerSpeed ping svp (initialState ping svp) = Ok (getSurfaceSoundSpeed ping) /\
  planarRayTrace sonar2cartesian ping svp boresightMatrix imu2nav rays0 times0
    = Ok ((snd step, fst step),
          rays0 ++ [(snd step, fst step)],
          times0 ++ [oneWayTravelTime ping]) /\
  rayTrace sonar2cartesian ping svp boresightMatrix imu2nav
    = Ok (reorient (sinAz sonar2cartesian ping boresightMatrix imu2nav)
            (cosAz sonar2cartesian ping boresightMatrix imu2nav)
            (snd step, fst step)) /\
  (getSurfaceSoundSpeed ping <> 0 ->
   (snd step, fst step)
   = straightLine (getSurfaceSoundSpeed ping) (oneWayTravelTime ping)
       (beta0 sonar2cartesian ping boresightMatrix imu2nav)).
Proof.
  intros p step Hsize Hcut.
  assert (Hlt : (svpCutoffIndex ping svp <? getSize svp)%N = false)
    by (apply N.ltb_ge; exact Hcut).
  assert (Hfirst : firstLayer sonar2cartesian ping svp boresightMatrix imu2nav
                   = Ok (initialState ping svp)).
  { unfold firstLayer. rewrite Hlt. reflexivity. }
  assert (Hplanar : planarFirstLayer sonar2cartesian ping svp boresightMatrix imu2nav
                      rays0 times0
                    = Ok (mkPlanarState (initialState ping svp) rays0 times0)).
  { unfold planarFirstLayer. rewrite Hlt. reflexivity. }
  assert (Hguard : walkGuard ping svp (initialState ping svp) = false).
  { apply walkGuard_last. rewrite sizeMinusOne_nonempty by assumption. simpl. lia. }
  assert (Hspeed : lastLayerSpeed ping svp (initialState ping svp)
                   = Ok (getSurfaceSoundSpeed ping)).
  { unfold lastLayerSpeed. rewrite Hlt. reflexivity. }
  assert (Htrace : planarRayTrace sonar2cartesian ping svp boresightMatrix imu2nav
                     rays0 times0
                   = Ok ((snd step, fst step), rays0 ++ [(snd step, fst step)],
                         times0 ++ [oneWayTravelTime ping])).
  { unfold planarRayTrace, planarAccumulated. rewrite Hplanar. cbn [bind].
    rewrite planarLayerWalk_exit by exact Hguard.
    cbn [bind ray layerRays layerTravelTimes]. rewrite Hspeed. cbn [bind].
    unfold step, p, lastLayerPropagation. simpl.
    repeat (f_equal; try lra). }
  split; [exact Hfirst|].
  split.
  { unfold accumulated. rewrite Hfirst. cbn [bind]. apply layerWalk_exit. exact Hguard. }
  split; [exact Hspeed|].
  split; [exact Htrace|].
  split.
  { rewrite (rayTrace_planarRayTrace _ _ _ _ _ rays0 times0), Htrace. reflexivity. }
  intros Hc. unfold step, lastLayerPropagation, straightLine. cbn [fst snd].
  unfold p. rewrite snell_surface by exact Hc. reflexivity.
Qed.

Lemma svpCutoffIndex_below (T : R) :
  svpCutoffIndex (Samples.nadirPing 500 T) Samples.twoLayers = 2%N.
Proof.
  unfold svpCutoffIndex. simpl.
  destruct (Rle_dec 500 12); [exfalso; lra|].
  destruct (Rle_dec 500 24); [exfalso; lra|]. reflexivity.
Qed.

Lemma transducer_below_profile_witness :
  rayTrace Samples.sphericalBeam (Samples.nadirPing 500 (1/20)) Samples.twoLayers
    identity3 Samples.pitched
  = Ok (reorient
          (sinAz Samples.sphericalBeam (Samples.nadirPing 500 (1/20)) identity3
             Samples.pitched)
          (cosAz Samples.sphericalBeam (Samples.nadirPing 500 (1/20)) identity3
             Samples.pitched)
          (straightLine 1500 (1 / 20 / 2)
             (beta0 Samples.sphericalBeam (Samples.nadirPing 500 (1/20)) identity3
                Samples.pitched))).
Proof.
  destruct (transducer_below_profile Samples.sphericalBeam
              (Samples.nadirPing 500 (1/20)) Samples.twoLayers identity3
              Samples.pitched [] [])
    as (_ & _ & _ & _ & H3 & Hline).
  - simpl. lia.
  - rewrite svpCutoffIndex_below. simpl. lia.
  - rewrite H3, Hline; [reflexivity|]. simpl. lra.
Defined.

(** ** When a trace fails *)

Section Failures.

Variable sonar2cartesian : R -> R -> R -> Vector3d.
Variable ping : Ping.
Variable svp : SoundVelocityProfile.
Variable boresightMatrix imu2nav : Matrix3d.

Local Abbreviation p := (snellConstant sonar2cartesian ping boresightMatrix imu2nav).
Local Abbreviation cutoff := (svpCutoffIndex ping svp).
Local Abbreviation walk := (layerWalk sonar2cartesian ping svp boresightMatrix imu2nav).

Hypothesis consistent : consistentProfile svp.

Lemma profileLayer_succeeds (q : R) (i : N) :
  (i < sizeMinusOne svp)%N -> succeeds (profileLayer svp q i).
Proof.
  destruct consistent as (H1 & Hd & Hs & Hg).
  rewrite sizeMinusOne_nonempty by exact H1. intros Hi.
  destruct (coeff_in_range (getSoundSpeedGradient svp) i) as [g [Eg _]]; [lia|].
  destruct (coeff_in_range (getDepths svp) i) as [z0 [Ez0 _]]; [lia|].
  destruct (coeff_in_range (getDepths svp) (i + 1)) as [z1 [Ez1 _]]; [lia|].
  destruct (coeff_in_range (getSpeeds svp) i) as [c0 [Ec0 _]]; [lia|].
  destruct (coeff_in_range (getSpeeds svp) (i + 1)) as [c1 [Ec1 _]]; [lia|].
  unfold profileLayer. rewrite Eg. cbn [bind].
  destruct (Rlt_dec (Rabs g) gradientEpsilon).
  - rewrite Ez0, Ez1, Ec0. cbn [bind]. eexists. reflexivity.
  - rewrite Ec0, Ec1. cbn [bind]. eexists. reflexivity.
Qed.

Lemma layerWalk_succeeds (n : nat) :
  forall st, (walkBudget svp st <= n)%nat -> succeeds (walk n st).
Proof.
  induction n as [|n IH]; intros st Hb.
  - destruct (walkGuard ping svp st) eqn:G.
    + apply walkGuard_index in G. unfold walkBudget in Hb. lia.
    + rewrite layerWalk_exit by assumption. eexists. reflexivity.
  - destruct (walkGuard ping svp st) eqn:G.
    + rewrite layerWalk_body by assumption.
      destruct (profileLayer_succeeds p (currentLayerIndex st)) as [s Es].
      { apply walkGuard_index in G. exact G. }
      rewrite Es. cbn [bind].
      destruct (fits ping (setCurrentLayer st s)).
      * apply IH. pose proof (walkBudget_next ping svp st s G). lia.
      * eexists. reflexivity.
    + rewrite layerWalk_exit by assumption. eexists. reflexivity.
Qed.

(** The transducer-layer step fails exactly when the sample at the cutoff
    index lies at the depth of the transducer. *)
Lemma transducerLayer_outcome (q : R) :
  (cutoff < getSize svp)%N ->
  exists z1,
    coeff (getDepths svp) cutoff = Ok z1 /\
    (z1 = getTransducerDepth ping ->
     transducerLayer ping svp q cutoff
       = Raise (InvalidArgument (getTransducerDepth ping) z1)) /\
    (z1 <> getTransducerDepth ping -> succeeds (transducerLayer ping svp q cutoff)).
Proof.
  destruct consistent as (H1 & Hd & Hs & Hg). intros Hc.
  destruct (coeff_in_range (getDepths svp) cutoff) as [z1 [Ez1 _]]; [lia|].
  destruct (coeff_in_range (getSpeeds svp) cutoff) as [c1 [Ec1 _]]; [lia|].
  exists z1. split; [exact Ez1|].
  unfold transducerLayer, soundSpeedGradient. rewrite Ez1, Ec1. cbn [bind].
  split; intros E.
  - destruct (Req_dec_T z1 (getTransducerDepth ping)); [reflexivity | contradiction].
  - destruct (Req_dec_T z1 (getTransducerDepth ping)); [contradiction|].
    cbn [bind]. destruct (Rlt_dec _ gradientEpsilon); eexists; reflexivity.
Qed.

Lemma firstLayer_raises (z1 : R) :
  (cutoff < getSize svp)%N ->
  coeff (getDepths svp) cutoff = Ok z1 ->
  z1 = getTransducerDepth ping ->
  firstLayer sonar2cartesian ping svp boresightMatrix imu2nav
    = Raise (InvalidArgument (getTransducerDepth ping) z1).
Proof.
  intros Hc Ez E. unfold firstLayer.
  apply N.ltb_lt in Hc. rewrite Hc. apply N.ltb_lt in Hc.
  destruct (transducerLayer_outcome p Hc) as [z [Ez' [Hr _]]].
  rewrite Ez in Ez'. inv Ez'. rewrite Hr by reflexivity. reflexivity.
Qed.

Lemma firstLayer_succeeds :
  (forall z1, (cutoff < getSize svp)%N -> coeff (getDepths svp) cutoff = Ok z1 ->
              z1 <> getTransducerDepth ping) ->
  succeeds (firstLayer sonar2cartesian ping svp boresightMatrix imu2nav).
Proof.
  intros Hne. unfold firstLayer.
  destruct (cutoff <? getSize svp)%N eqn:Hc; [|eexists; reflexivity].
  apply N.ltb_lt in Hc.
  destruct (transducerLayer_outcome p Hc) as [z [Ez [_ Hs]]].
  destruct (Hs (Hne z Hc Ez)) as [s Es]. rewrite Es. cbn [bind].
  destruct (fits ping _); eexists; reflexivity.
Qed.

Lemma lastLayerSpeed_succeeds (st st' : RayState) (n : nat) :
  currentLayerIndex st = cutoff ->
  walk n st = Ok st' ->
  succeeds (lastLayerSpeed ping svp st').
Proof.
  destruct consistent as (H1 & Hd & Hs & Hg). intros Hi Hw.
  unfold lastLayerSpeed.
  destruct (cutoff <? getSize svp)%N eqn:Hc; [|eexists; reflexivity].
  apply N.ltb_lt in Hc. apply layerWalk_index in Hw.
  rewrite sizeMinusOne_nonempty in Hw by exact H1.
  destruct (coeff_in_range (getSpeeds svp) (currentLayerIndex st')) as [c [Ec _]];
    [lia|].
  exists c. exact Ec.
Qed.

(** On a consistent profile a trace returns unless the transducer-layer step
    fails. *)
Lemma rayTrace_succeeds :
  (forall z1, (cutoff < getSize svp)%N -> coeff (getDepths svp) cutoff = Ok z1 ->
              z1 <> getTransducerDepth ping) ->
  succeeds (rayTrace sonar2cartesian ping svp boresightMatrix imu2nav).
Proof.
  intros Hne. destruct (firstLayer_succeeds Hne) as [st1 E1].
  destruct (layerWalk_succeeds (walkBudget svp st1) st1) as [st2 E2]; [lia|].
  destruct (lastLayerSpeed_succeeds st1 st2 (walkBudget svp st1)) as [c Ec];
    [eapply firstLayer_index; eassumption | exact E2 |].
  unfold rayTrace, accumulated. rewrite E1. cbn [bind]. rewrite E2. cbn [bind].
  rewrite Ec. cbn [bind].
  destruct (lastLayerPropagation _ c p). eexists. reflexivity.
Qed.

Lemma rayTrace_raises (z1 : R) :
  (cutoff < getSize svp)%N ->
  coeff (getDepths svp) cutoff = Ok z1 ->
  z1 = getTransducerDepth ping ->
  rayTrace sonar2cartesian ping svp boresightMatrix imu2nav
    = Raise (InvalidArgument (getTransducerDepth ping) z1).
Proof.
  intros Hc Ez E. unfold rayTrace, accumulated.
  rewrite (firstLayer_raises z1 Hc Ez E). reflexivity.
Qed.

End Failures.

Lemma planarRayTrace_succeeds
  (sonar2cartesian : R -> R -> R -> Vector3d) (ping : Ping)
  (svp : SoundVelocityProfile) (boresightMatrix imu2nav : Matrix3d)
  (rays0 : list Vector2d) (times0 : list R) :
  succeeds (rayTrace sonar2cartesian ping svp boresightMatrix imu2nav) ->
  succeeds (planarRayTrace sonar2cartesian ping svp boresightMatrix imu2nav
              rays0 times0).
Proof.
  intros [v H]. rewrite (rayTrace_planarRayTrace _ _ _ _ _ rays0 times0) in H.
  destruct (planarRayTrace _ _ _ _ _ _ _) as [r|f]; [exists r; reflexivity | discriminate].
Qed.

(** C6, as the code has it.  A trace checks no argument of a square root or
    of a logarithm.  On a consistent profile the only failure it can raise is
    the invalid-argument failure of [soundSpeedGradient], and it raises it
    exactly when the cutoff index is in range and the sample there lies at
    the depth of the transducer; on all other inputs both variants return a
    result, whatever values reached [sqrt] and [ln]. *)
Theorem domain_unchecked
  (sonar2cartesian : R -> R -> R -> Vector3d) (ping : Ping)
  (svp : SoundVelocityProfile) (boresightMatrix imu2nav : Matrix3d)
  (rays0 : list Vector2d) (times0 : list R) :
  consistentProfile svp ->
  (forall f, rayTrace sonar2cartesian ping svp boresightMatrix imu2nav = Raise f ->
     f = InvalidArgument (getTransducerDepth ping) (getTransducerDepth ping) /\
     (svpCutoffIndex ping svp < getSize svp)%N /\
     coeff (getDepths svp) (svpCutoffIndex ping svp) = Ok (getTransducerDepth ping)) /\
  ((forall z1, (svpCutoffIndex ping svp < getSize svp)%N ->
      coeff (getDepths svp) (svpCutoffIndex ping svp) = Ok z1 ->
      z1 <> getTransducerDepth ping) ->
   succeeds (rayTrace sonar2cartesian ping svp boresightMatrix imu2nav) /\
   succeeds (planarRayTrace sonar2cartesian ping svp boresightMatrix imu2nav
               rays0 times0)).
Proof.
  intros Hc. split.
  - intros f Hf.
    destruct (svpCutoffIndex ping svp <? getSize svp)%N eqn:Hlt.
    + apply N.ltb_lt in Hlt.
      destruct (transducerLayer_outcome ping svp Hc 0 Hlt) as [z1 [Ez1 _]].
      destruct (Req_dec_T z1 (getTransducerDepth ping)) as [E|E].
      * rewrite (rayTrace_raises sonar2cartesian ping svp boresightMatrix imu2nav
                   Hc z1 Hlt Ez1 E) in Hf.
        inv Hf. auto.
      * destruct (rayTrace_succeeds sonar2cartesian ping svp boresightMatrix imu2nav Hc)
          as [v Hv].
        { intros z Hz Ez. rewrite Ez1 in Ez. inv Ez. exact E. }
        rewrite Hv in Hf. discriminate.
    + destruct (rayTrace_succeeds sonar2cartesian ping svp boresightMatrix imu2nav Hc)
        as [v Hv].
      { intros z Hz Ez. apply N.ltb_ge in Hlt. lia. }
      rewrite Hv in Hf. discriminate.
  - intros Hne.
    pose proof (rayTrace_succeeds sonar2cartesian ping svp boresightMatrix imu2nav
                  Hc Hne) as H3.
    split; [exact H3 | apply planarRayTrace_succeeds; exact H3].
Qed.

Lemma consistentProfile_fastLayer : consistentProfile Samples.fastLayer.
Proof. unfold consistentProfile. simpl. repeat split; reflexivity || lia || discriminate. Qed.

Lemma svpCutoffIndex_fastLayer (T : R) :
  svpCutoffIndex (Samples.nadirPing 0 T) Samples.fastLayer = 0%N.
Proof.
  unfold svpCutoffIndex. simpl. destruct (Rle_dec 0 12); [reflexivity | exfalso; lra].
Qed.

Lemma fastLayer_not_at_transducer (T z1 : R) :
  (svpCutoffIndex (Samples.nadirPing 0 T) Samples.fastLayer
   < getSize Samples.fastLayer)%N ->
  coeff (getDepths Samples.fastLayer)
    (svpCutoffIndex (Samples.nadirPing 0 T) Samples.fastLayer) = Ok z1 ->
  z1 <> getTransducerDepth (Samples.nadirPing 0 T).
Proof.
  intros _. rewrite svpCutoffIndex_fastLayer. intros H. inv H. simpl. lra.
Qed.

Lemma domain_unchecked_witness :
  succeeds (rayTrace Samples.sphericalBeam (Samples.nadirPing 0 (1/20))
              Samples.fastLayer identity3 Samples.pitched) /\
  succeeds (planarRayTrace Samples.sphericalBeam (Samples.nadirPing 0 (1/20))
              Samples.fastLayer identity3 Samples.pitched [] []).
Proof.
  apply (domain_unchecked Samples.sphericalBeam (Samples.nadirPing 0 (1/20))
           Samples.fastLayer identity3 Samples.pitched [] []
           consistentProfile_fastLayer).
  exact (fastLayer_not_at_transducer (1/20)).
Defined.

(** C6 as stated fails where a surface sound speed of 1500 m/s meets a sample
    of 3000 m/s: the transducer-layer step is the constant-gradient formula
    with [cosBn = 6/5], the argument of its square root is negative, and the
    trace returns a result all the same. *)
Lemma domain_unchecked_counterexample :
  snellConstant Samples.sphericalBeam (Samples.nadirPing 0 (1/20)) identity3
    Samples.pitched * 3000 = 6/5 /\
  1 - (snellConstant Samples.sphericalBeam (Samples.nadirPing 0 (1/20)) identity3
         Samples.pitched * 3000) ^ 2 < 0 /\
  transducerLayer (Samples.nadirPing 0 (1/20)) Samples.fastLayer
    (snellConstant Samples.sphericalBeam (Samples.nadirPing 0 (1/20)) identity3
       Samples.pitched) 0
  = Ok (constantGradientRayTracing 1500 3000 ((3000 - 1500) / (12 - 0))
          (snellConstant Samples.sphericalBeam (Samples.nadirPing 0 (1/20)) identity3
             Samples.pitched)) /\
  succeeds (rayTrace Samples.sphericalBeam (Samples.nadirPing 0 (1/20))
              Samples.fastLayer identity3 Samples.pitched).
Proof.
  rewrite snellConstant_pitched.
  split; [lra|]. split; [lra|]. split.
  - unfold transducerLayer, soundSpeedGradient. simpl.
    destruct (Req_dec_T 12 0); [exfalso; lra|]. simpl.
    destruct (Rlt_dec _ gradientEpsilon) as [H|_]; [|reflexivity].
    exfalso. revert H. unfold gradientEpsilon.
    replace ((3000 - 1500) / (12 - 0)) with 125 by lra.
    rewrite Rabs_right; lra.
  - apply rayTrace_succeeds;
      [exact consistentProfile_fastLayer | exact (fastLayer_not_at_transducer (1/20))].
Qed.

(** ** A profile with two samples at the same depth *)

Lemma svpCutoffIndex_repeatedDepth (g T : R) :
  svpCutoffIndex (Samples.nadirPing 0 T) (Samples.repeatedDepth g) = 0%N.
Proof.
  unfold svpCutoffIndex. simpl. destruct (Rle_dec 0 12); [reflexivity | exfalso; lra].
Qed.

Lemma transducerLayer_repeatedDepth (g T : R) :
  transducerLayer (Samples.nadirPing 0 T) (Samples.repeatedDepth g) (1 / 2500) 0
  = Ok (mkLayerStep 12 9 (1 / 100)).
Proof.
  unfold transducerLayer, soundSpeedGradient. simpl.
  destruct (Req_dec_T 12 0); [exfalso; lra|]. simpl.
  destruct (Rlt_dec _ gradientEpsilon) as [_|H];
    [|exfalso; apply H; apply Rabs_zero_gradient].
  rewrite constantCelerityRayTracing_pitched. f_equal. apply layerStep_eq; lra.
Qed.

Lemma profileLayer_repeatedDepth_0 (g : R) :
  profileLayer (Samples.repeatedDepth g) (1 / 2500) 0 = Ok (mkLayerStep 12 9 (1 / 100)).
Proof.
  unfold profileLayer. simpl.
  destruct (Rlt_dec (Rabs 0) gradientEpsilon) as [_|H];
    [|exfalso; apply H; apply Rabs_0_epsilon].
  rewrite constantCelerityRayTracing_pitched. f_equal. apply layerStep_eq; lra.
Qed.

Lemma profileLayer_repeatedDepth_2 (g : R) :
  profileLayer (Samples.repeatedDepth g) (1 / 2500) 2 = Ok (mkLayerStep 12 9 (1 / 100)).
Proof.
  unfold profileLayer. simpl.
  destruct (Rlt_dec (Rabs 0) gradientEpsilon) as [_|H];
    [|exfalso; apply H; apply Rabs_0_epsilon].
  rewrite constantCelerityRayTracing_pitched. f_equal. apply layerStep_eq; lra.
Qed.

(** The interval between the two samples at 24 m: whatever gradient the
    profile reports for it, the layer formula chosen yields a step of no
    extent and no duration. *)
Lemma profileLayer_repeatedDepth_1 (g : R) :
  profileLayer (Samples.repeatedDepth g) (1 / 2500) 1 = Ok (mkLayerStep 0 0 0).
Proof.
  unfold profileLayer. simpl.
  destruct (Rlt_dec (Rabs g) gradientEpsilon) as [_|_].
  - rewrite constantCelerityRayTracing_pitched. f_equal. apply layerStep_eq; lra.
  - unfold constantGradientRayTracing. rewrite sinBn_pitched. f_equal.
    apply layerStep_eq.
    + ring.
    + ring.
    + replace (1500 / 1500 * ((1 + 4/5) / (1 + 4/5))) with 1 by lra.
      rewrite ln_1, Rmult_0_r. apply Rabs_R0.
Qed.

(** C4 fails on the code.  The profile has two adjacent samples at 24 m, and
    the trace walks through them: with a two-way travel time of 0.08 s it
    commits the transducer layer, the layer from 12 m to 24 m, the interval
    of no thickness between the two samples at 24 m, and the layer from 24 m
    to 36 m, and returns a result.  No failure is raised, whatever gradient
    the profile reports for the interval. *)
Theorem repeated_depth_not_reported (g : R) :
  planarRayTrace Samples.sphericalBeam (Samples.nadirPing 0 (2/25))
    (Samples.repeatedDepth g) identity3 Samples.pitched [] []
  = Ok ((36, 48),
        [(9, 12); (9, 12); (0, 0); (9, 12); (9, 12)],
        [1 / 100; 1 / 100; 0; 1 / 100; 1 / 100]) /\
  rayTrace Samples.sphericalBeam (Samples.nadirPing 0 (2/25))
    (Samples.repeatedDepth g) identity3 Samples.pitched
  = Ok (36, 0, 48).
Proof.
  assert (H2 : planarRayTrace Samples.sphericalBeam (Samples.nadirPing 0 (2/25))
                 (Samples.repeatedDepth g) identity3 Samples.pitched [] []
               = Ok ((36, 48),
                     [(9, 12); (9, 12); (0, 0); (9, 12); (9, 12)],
                     [1 / 100; 1 / 100; 0; 1 / 100; 1 / 100])).
  { unfold planarRayTrace, planarAccumulated, planarFirstLayer, initialState.
    rewrite svpCutoffIndex_repeatedDepth, snellConstant_pitched.
    change (0 <? getSize (Samples.repeatedDepth g))%N with true. cbv iota.
    rewrite transducerLayer_repeatedDepth. cbn [bind].
    rewrite (proj2 (fits_true _ _)) by (unfold oneWayTravelTime; simpl; lra).
    cbn [bind]. unfold walkBudget.
    change (N.to_nat _) with 3%nat.
    rewrite planarLayerWalk_body
      by (apply walkGuard_true; [unfold oneWayTravelTime; simpl; lra | reflexivity]).
    rewrite snellConstant_pitched.
    change (currentLayerIndex _) with 0%N.
    rewrite profileLayer_repeatedDepth_0. cbn [bind].
    rewrite (proj2 (fits_true _ _)) by (unfold oneWayTravelTime; simpl; lra).
    rewrite planarLayerWalk_body
      by (apply walkGuard_true; [unfold oneWayTravelTime; simpl; lra | reflexivity]).
    rewrite snellConstant_pitched.
    change (currentLayerIndex _) with 1%N.
    rewrite profileLayer_repeatedDepth_1. cbn [bind].
    rewrite (proj2 (fits_true _ _)) by (unfold oneWayTravelTime; simpl; lra).
    rewrite planarLayerWalk_body
      by (apply walkGuard_true; [unfold oneWayTravelTime; simpl; lra | reflexivity]).
    rewrite snellConstant_pitched.
    change (currentLayerIndex _) with 2%N.
    rewrite profileLayer_repeatedDepth_2. cbn [bind].
    rewrite (proj2 (fits_true _ _)) by (unfold oneWayTravelTime; simpl; lra).
    rewrite planarLayerWalk_exit by (apply walkGuard_last; simpl; reflexivity || lia).
    cbn [bind]. unfold lastLayerSpeed. rewrite svpCutoffIndex_repeatedDepth.
    change (0 <? getSize (Samples.repeatedDepth g))%N with true. cbv iota.
    cbn [ray pushLayer accumulate nextLayer setCurrentLayer layerRays layerTravelTimes
         currentLayerIndex currentLayerRaytraceTime currentLayerDeltaZ currentLayerDeltaR
         cumulativeRaytraceTime cumulativeRayX cumulativeRayZ
         deltaZ deltaR deltaTravelTime].
    change (coeff (getSpeeds (Samples.repeatedDepth g)) (0 + 1 + 1 + 1)) with (Ok 1500).
    cbn [bind].
    rewrite lastLayerPropagation_pitched. unfold oneWayTravelTime.
    simpl getTwoWayTravelTime. simpl app.
    repeat (f_equal; try lra). }
  split; [exact H2|].
  rewrite (rayTrace_planarRayTrace _ _ _ _ _ [] []), H2.
  unfold mapOutcome, reorient, aggregate, sinAz, cosAz.
  rewrite launchVectorParameters_pitched. simpl. f_equal. apply pair3_eq; lra.
Qed.

(** ** A profile of uniform speed *)

Section Uniform.

Variable sonar2cartesian : R -> R -> R -> Vector3d.
Variable ping : Ping.
Variable svp : SoundVelocityProfile.
Variable boresightMatrix imu2nav : Matrix3d.
Variable c : R.

Local Abbreviation p := (snellConstant sonar2cartesian ping boresightMatrix imu2nav).
Local Abbreviation beta := (beta0 sonar2cartesian ping boresightMatrix imu2nav).
Local Abbreviation walk := (layerWalk sonar2cartesian ping svp boresightMatrix imu2nav).

Hypothesis uniform : uniformProfile svp c.
Hypothesis surface : getSurfaceSoundSpeed ping = c.
Hypothesis moving : c <> 0.
Hypothesis descending : sqrt (1 - cos beta ^ 2) <> 0.

Lemma snell_uniform : p * c = cos beta.
Proof. rewrite <- surface. apply snell_surface. rewrite surface. exact moving. Qed.

Lemma constantCelerity_on_line (z0 z1 : R) :
  let s := constantCelerityRayTracing z0 z1 c p in
  deltaR s = c * deltaTravelTime s * cos beta /\
  deltaZ s = c * deltaTravelTime s * sqrt (1 - cos beta ^ 2).
Proof.
  unfold constantCelerityRayTracing. cbn [deltaR deltaZ deltaTravelTime].
  rewrite snell_uniform. split; [ring|]. field. split; assumption.
Qed.

Lemma profileLayer_uniform (i : N) (s : LayerStep) :
  profileLayer svp p i = Ok s ->
  exists z0 z1, s = constantCelerityRayTracing z0 z1 c p.
Proof.
  destruct uniform as [Hs Hg]. unfold profileLayer. intros H.
  apply bind_Ok in H. destruct H as [g [Eg H]].
  apply coeff_In in Eg. rewrite Forall_forall in Hg. apply Hg in Eg. rewrite Eg in H.
  destruct (Rlt_dec (Rabs 0) gradientEpsilon) as [_|Hn];
    [|exfalso; apply Hn; apply Rabs_0_epsilon].
  apply bind_Ok in H. destruct H as [z0 [_ H]].
  apply bind_Ok in H. destruct H as [z1 [_ H]].
  apply bind_Ok in H. destruct H as [c0 [Ec H]].
  apply coeff_In in Ec. rewrite Forall_forall in Hs. apply Hs in Ec. rewrite Ec in H.
  injection H as <-. exists z0, z1. reflexivity.
Qed.

Lemma transducerLayer_uniform (i : N) (s : LayerStep) :
  transducerLayer ping svp p i = Ok s ->
  exists z0 z1, s = constantCelerityRayTracing z0 z1 c p.
Proof.
  destruct uniform as [Hs _]. unfold transducerLayer. intros H.
  apply bind_Ok in H. destruct H as [z1 [_ H]].
  apply bind_Ok in H. destruct H as [c1 [Ec H]].
  apply coeff_In in Ec. rewrite Forall_forall in Hs. apply Hs in Ec. rewrite Ec in H.
  apply bind_Ok in H. destruct H as [g [Eg H]].
  unfold soundSpeedGradient in Eg.
  destruct (Req_dec_T z1 (getTransducerDepth ping)); [discriminate|].
  injection Eg as <-. rewrite surface in H.
  destruct (Rlt_dec _ gradientEpsilon) as [_|Hn];
    [|exfalso; apply Hn; apply Rabs_zero_gradient].
  injection H as <-. exists (getTransducerDepth ping), z1. reflexivity.
Qed.

Lemma onStraightLine_commit (st : RayState) (z0 z1 : R) :
  onStraightLine c beta st ->
  onStraightLine c beta
    (accumulate (setCurrentLayer st (constantCelerityRayTracing z0 z1 c p))).
Proof.
  unfold onStraightLine, straightLine. cbn [fst snd]. intros [HX HZ].
  destruct (constantCelerity_on_line z0 z1) as [HR HD].
  cbn [accumulate setCurrentLayer cumulativeRayX cumulativeRayZ cumulativeRaytraceTime
       currentLayerDeltaR currentLayerDeltaZ currentLayerRaytraceTime].
  rewrite HX, HZ, HR, HD. split; ring.
Qed.

Lemma firstLayer_on_line (st : RayState) :
  firstLayer sonar2cartesian ping svp boresightMatrix imu2nav = Ok st ->
  onStraightLine c beta st.
Proof.
  assert (H0 : onStraightLine c beta (initialState ping svp)).
  { unfold onStraightLine, straightLine. simpl. split; ring. }
  unfold firstLayer. intros H.
  destruct (svpCutoffIndex ping svp <? getSize svp)%N; [|injection H as <-; exact H0].
  apply bind_Ok in H. destruct H as [s [Es H]].
  apply transducerLayer_uniform in Es. destruct Es as [z0 [z1 ->]].
  destruct (fits ping _); injection H as <-.
  - apply onStraightLine_commit. exact H0.
  - exact H0.
Qed.

Lemma layerWalk_on_line (n : nat) :
  forall st st', onStraightLine c beta st -> walk n st = Ok st' ->
  onStraightLine c beta st'.
Proof.
  induction n as [|n IH]; intros st st' Hst H.
  - simpl in H.
    destruct (walkGuard ping svp st); [discriminate | injection H as <-; exact Hst].
  - destruct (walkGuard ping svp st) eqn:G.
    + rewrite layerWalk_body in H by assumption.
      apply bind_Ok in H. destruct H as [s [Es H]].
      apply profileLayer_uniform in Es. destruct Es as [z0 [z1 ->]].
      destruct (fits ping _).
      * eapply IH; [|exact H].
        apply (onStraightLine_commit (nextLayer st) z0 z1). exact Hst.
      * injection H as <-. exact Hst.
    + rewrite layerWalk_exit in H by assumption. injection H as <-. exact Hst.
Qed.

Lemma lastLayerSpeed_uniform (st : RayState) (c' : R) :
  lastLayerSpeed ping svp st = Ok c' -> c' = c.
Proof.
  destruct uniform as [Hs _]. unfold lastLayerSpeed. intros H.
  destruct (svpCutoffIndex ping svp <? getSize svp)%N.
  - apply coeff_In in H. rewrite Forall_forall in Hs. apply Hs in H. exact H.
  - injection H as <-. exact surface.
Qed.

(** The whole trace is one straight line. *)
Lemma planarRayTrace_uniform (rays0 : list Vector2d) (times0 : list R)
  (agg : Vector2d) (rays : list Vector2d) (times : list R) :
  planarRayTrace sonar2cartesian ping svp boresightMatrix imu2nav rays0 times0
    = Ok (agg, rays, times) ->
  agg = straightLine c (oneWayTravelTime ping) beta.
Proof.
  intros H. apply planarRayTrace_Ok in H.
  destruct H as [pst [c' (Hacc & Hc & Hagg & _ & _)]].
  apply lastLayerSpeed_uniform in Hc. rewrite Hc in Hagg.
  pose proof (planarAccumulated_ray sonar2cartesian ping svp boresightMatrix imu2nav
                rays0 times0) as Hray.
  rewrite Hacc in Hray. simpl in Hray. symmetry in Hray.
  unfold accumulated in Hray. apply bind_Ok in Hray.
  destruct Hray as [st1 [H1 Hw]]. apply firstLayer_on_line in H1.
  pose proof (layerWalk_on_line _ _ _ H1 Hw) as [HX HZ].
  rewrite Hagg. unfold lastLayerPropagation, straightLine in *. cbn [fst snd] in *.
  rewrite HX, HZ, snell_uniform. f_equal; ring.
Qed.

End Uniform.

Lemma sin_of_grazing (b : R) :
  0 < b < PI / 2 -> sqrt (1 - cos b ^ 2) = sin b.
Proof.
  intros [H0 H1]. apply sqrt_of_square.
  - left. apply sin_gt_0; [exact H0 | lra].
  - pose proof (sin2_cos2 b) as H. unfold Rsqr in H. lra.
Qed.

Lemma asin_pos (x : R) : 0 < x < 1 -> 0 < asin x < PI / 2.
Proof.
  intros Hx. destruct (asin_bound_lt x) as [Hl Hu]; [lra|].
  split; [|exact Hu].
  destruct (Rlt_le_dec 0 (asin x)) as [H|H]; [exact H|exfalso].
  assert (Hs : sin (asin x) = x) by (apply sin_asin; lra).
  destruct H as [H|H].
  - assert (sin (asin x) < 0) by (apply sin_lt_0_var; lra). lra.
  - rewrite H, sin_0 in Hs. lra.
Qed.

(** C7, as the code has it.  On a profile of uniform speed, with a surface
    sound speed equal to that speed and a ray launched downwards at the
    grazing angle [beta0], strictly between horizontal and vertical, the
    whole trace is straight-line propagation for the one-way travel time:
    range [c t cos beta0] and depth [c t sin beta0].  So the depth is the
    range times [tan beta0], and the range over the depth is the inverse of
    [tan beta0]. *)
Theorem uniform_profile_is_straight
  (sonar2cartesian : R -> R -> R -> Vector3d) (ping : Ping)
  (svp : SoundVelocityProfile) (boresightMatrix imu2nav : Matrix3d) (c : R)
  (rays0 : list Vector2d) (times0 : list R)
  (agg : Vector2d) (rays : list Vector2d) (times : list R) :
  let beta := beta0 sonar2cartesian ping boresightMatrix imu2nav in
  let t := oneWayTravelTime ping in
  uniformProfile svp c ->
  getSurfaceSoundSpeed ping = c ->
  c <> 0 ->
  0 < beta < PI / 2 ->
  planarRayTrace sonar2cartesian ping svp boresightMatrix imu2nav rays0 times0
    = Ok (agg, rays, times) ->
  agg = straightLine c t beta /\
  agg = (c * t * cos beta, c * t * sin beta) /\
  rayTrace sonar2cartesian ping svp boresightMatrix imu2nav
    = Ok (reorient (sinAz sonar2cartesian ping boresightMatrix imu2nav)
            (cosAz sonar2cartesian ping boresightMatrix imu2nav) agg) /\
  snd agg = fst agg * tan beta /\
  (t <> 0 -> fst agg / snd agg = / tan beta).
Proof.
  intros beta t Hu Hs Hc Hb H.
  assert (Hsin : sqrt (1 - cos beta ^ 2) = sin beta) by (apply sin_of_grazing; exact Hb).
  assert (Hsin0 : 0 < sin beta) by (apply sin_gt_0; lra).
  assert (Hcos0 : 0 < cos beta) by (apply cos_gt_0; lra).
  assert (Hline : agg = straightLine c t beta).
  { eapply planarRayTrace_uniform; eauto. fold beta. rewrite Hsin. lra. }
  assert (Hagg : agg = (c * t * cos beta, c * t * sin beta)).
  { rewrite Hline. unfold straightLine. rewrite Hsin. reflexivity. }
  split; [exact Hline|]. split; [exact Hagg|]. split.
  { rewrite (rayTrace_planarRayTrace _ _ _ _ _ rays0 times0), H. reflexivity. }
  rewrite Hagg. cbn [fst snd]. unfold tan. split.
  - field. lra.
  - intros Ht. field. repeat split; lra.
Qed.

Lemma uniformProfile_twoLayers : uniformProfile Samples.twoLayers 1500.
Proof.
  unfold uniformProfile. simpl. split; repeat constructor.
Qed.

Lemma beta0_pitched (depth time : R) :
  beta0 Samples.sphericalBeam (Samples.nadirPing depth time) identity3 Samples.pitched
  = asin (4/5).
Proof. unfold beta0. rewrite launchVectorParameters_pitched. reflexivity. Qed.

Lemma tan_asin_4_5 : tan (asin (4/5)) = 4/3.
Proof.
  unfold tan. rewrite sin_asin by lra. rewrite cos_asin_4_5. lra.
Qed.

Lemma uniform_profile_is_straight_witness :
  snd (18 + 900 * (1 / 20 / 2 - 1 / 50), 24 + 1200 * (1 / 20 / 2 - 1 / 50))
  = fst (18 + 900 * (1 / 20 / 2 - 1 / 50), 24 + 1200 * (1 / 20 / 2 - 1 / 50))
    * tan (beta0 Samples.sphericalBeam (Samples.nadirPing 0 (1/20)) identity3
             Samples.pitched) /\
  fst (18 + 900 * (1 / 20 / 2 - 1 / 50), 24 + 1200 * (1 / 20 / 2 - 1 / 50))
  / snd (18 + 900 * (1 / 20 / 2 - 1 / 50), 24 + 1200 * (1 / 20 / 2 - 1 / 50))
  = / tan (beta0 Samples.sphericalBeam (Samples.nadirPing 0 (1/20)) identity3
             Samples.pitched).
Proof.
  destruct (uniform_profile_is_straight Samples.sphericalBeam
              (Samples.nadirPing 0 (1/20)) Samples.twoLayers identity3 Samples.pitched
              1500 [] []
              (18 + 900 * (1 / 20 / 2 - 1 / 50), 24 + 1200 * (1 / 20 / 2 - 1 / 50))
              [(9, 12); (9, 12);
               (900 * (1 / 20 / 2 - 1 / 50), 1200 * (1 / 20 / 2 - 1 / 50))]
              [1 / 100; 1 / 100; 1 / 20 / 2 - 1 / 50])
    as (_ & _ & _ & Htan & Hratio).
  - exact uniformProfile_twoLayers.
  - reflexivity.
  - lra.
  - rewrite beta0_pitched. apply asin_pos. lra.
  - apply (planarRayTrace_twoLayers (1/20) [] []). lra.
  - split; [exact Htan|]. apply Hratio. unfold oneWayTravelTime. simpl. lra.
Defined.

(** C7 as stated fails on the uniform sample profile: the launch grazing
    angle has tangent 4/3, and the range over the depth of the aggregate is
    3/4. *)
Lemma uniform_profile_counterexample :
  uniformProfile Samples.twoLayers 1500 /\
  getSurfaceSoundSpeed (Samples.nadirPing 0 (1/20)) = 1500 /\
  planarRayTrace Samples.sphericalBeam (Samples.nadirPing 0 (1/20)) Samples.twoLayers
    identity3 Samples.pitched [] []
  = Ok ((45/2, 30), [(9, 12); (9, 12); (9/2, 6)], [1 / 100; 1 / 100; 1 / 200]) /\
  tan (beta0 Samples.sphericalBeam (Samples.nadirPing 0 (1/20)) identity3
         Samples.pitched) = 4/3 /\
  fst (45/2, 30) / snd (45/2, 30)
  <> tan (beta0 Samples.sphericalBeam (Samples.nadirPing 0 (1/20)) identity3
            Samples.pitched).
Proof.
  split; [exact uniformProfile_twoLayers|]. split; [reflexivity|]. split.
  - rewrite planarRayTrace_twoLayers by lra. simpl app.
    repeat (f_equal; try lra).
  - rewrite beta0_pitched, tan_asin_4_5. split; [reflexivity|]. simpl. lra.
Qed.

(** * Further properties of the layer formulas *)

Lemma sinBn_squared (x : R) : x ^ 2 <= 1 -> sqrt (1 - x ^ 2) ^ 2 = 1 - x ^ 2.
Proof. intros H. apply pow2_sqrt. lra. Qed.

(** X1.  A constant-celerity step has the length the sound travels in its
    duration: [deltaR^2 + deltaZ^2 = (c * deltaTravelTime)^2], and its slope
    is that of the grazing angle, [deltaR * sinBn = deltaZ * cosBn], as long
    as [cosBn] is a cosine and the ray is not horizontal. *)
Theorem constantCelerity_path_length (z0 z1 c snellConstant : R) :
  (snellConstant * c) ^ 2 <= 1 ->
  c * sqrt (1 - (snellConstant * c) ^ 2) <> 0 ->
  let s := constantCelerityRayTracing z0 z1 c snellConstant in
  deltaR s ^ 2 + deltaZ s ^ 2 = (c * deltaTravelTime s) ^ 2 /\
  deltaR s * sqrt (1 - (snellConstant * c) ^ 2) = deltaZ s * (snellConstant * c).
Proof.
  intros Hdom Hne. unfold constantCelerityRayTracing.
  cbn [deltaR deltaZ deltaTravelTime].
  pose proof (sinBn_squared _ Hdom) as Hs.
  set (cosBn := snellConstant * c) in *.
  set (sinBn := sqrt (1 - cosBn ^ 2)) in *.
  assert (Hc : c <> 0) by (intros ->; apply Hne; ring).
  assert (Hsn : sinBn <> 0) by (intros E; apply Hne; rewrite E; ring).
  assert (HZ : z1 - z0 = c * ((z1 - z0) / (c * sinBn)) * sinBn) by (field; auto).
  set (dT := (z1 - z0) / (c * sinBn)) in *.
  split.
  - rewrite HZ.
    replace (c * dT * sinBn) with ((c * dT) * sinBn) by ring.
    replace ((cosBn * dT * c) ^ 2 + (c * dT * sinBn) ^ 2)
      with ((c * dT) ^ 2 * (cosBn ^ 2 + sinBn ^ 2)) by ring.
    rewrite Hs. ring.
  - rewrite HZ. ring.
Qed.

Lemma constantCelerity_path_length_witness :
  deltaR (constantCelerityRayTracing 0 12 1500 (1 / 2500)) ^ 2
  + deltaZ (constantCelerityRayTracing 0 12 1500 (1 / 2500)) ^ 2
  = (1500 * deltaTravelTime (constantCelerityRayTracing 0 12 1500 (1 / 2500))) ^ 2.
Proof.
  apply (constantCelerity_path_length 0 12 1500 (1 / 2500)).
  - lra.
  - rewrite sinBn_pitched. lra.
Defined.

(** X2.  Through a layer of constant celerity, [lastLayerPropagation] for the
    time the whole layer takes ends where [constantCelerityRayTracing] ends,
    on the lower boundary of the layer. *)
Theorem lastLayerPropagation_whole_layer (z0 z1 c snellConstant : R) :
  c * sqrt (1 - (snellConstant * c) ^ 2) <> 0 ->
  let s := constantCelerityRayTracing z0 z1 c snellConstant in
  lastLayerPropagation (deltaTravelTime s) c snellConstant = (deltaZ s, deltaR s).
Proof.
  intros Hne. unfold constantCelerityRayTracing, lastLayerPropagation.
  cbn [deltaR deltaZ deltaTravelTime].
  set (sinBn := sqrt (1 - (snellConstant * c) ^ 2)) in *.
  assert (Hc : c <> 0) by (intros ->; apply Hne; ring).
  assert (Hsn : sinBn <> 0) by (intros E; apply Hne; rewrite E; ring).
  f_equal; field; auto.
Qed.

Lemma lastLayerPropagation_whole_layer_witness :
  lastLayerPropagation
    (deltaTravelTime (constantCelerityRayTracing 0 12 1500 (1 / 2500))) 1500 (1 / 2500)
  = (deltaZ (constantCelerityRayTracing 0 12 1500 (1 / 2500)),
     deltaR (constantCelerityRayTracing 0 12 1500 (1 / 2500))).
Proof.
  apply (lastLayerPropagation_whole_layer 0 12 1500 (1 / 2500)).
  rewrite sinBn_pitched. lra.
Defined.

(** X3.  [lastLayerPropagation] moves along a straight line at the speed
    [c_lastLayer]: the steps for two times add up to the step for their sum,
    and as long as [cosBn] is a cosine the step for the time [t] has length
    [c_lastLayer * t]. *)
Theorem lastLayerPropagation_straight (t1 t2 c snellConstant : R) :
  (snellConstant * c) ^ 2 <= 1 ->
  let step := fun t => lastLayerPropagation t c snellConstant in
  fst (step (t1 + t2)) = fst (step t1) + fst (step t2) /\
  snd (step (t1 + t2)) = snd (step t1) + snd (step t2) /\
  snd (step t1) ^ 2 + fst (step t1) ^ 2 = (c * t1) ^ 2.
Proof.
  intros Hdom. unfold lastLayerPropagation. cbn [fst snd].
  pose proof (sinBn_squared _ Hdom) as Hs.
  set (cosBn := snellConstant * c) in *.
  set (sinBn := sqrt (1 - cosBn ^ 2)) in *.
  split; [ring|]. split; [ring|].
  replace ((c * t1 * cosBn) ^ 2 + (c * t1 * sinBn) ^ 2)
    with ((c * t1) ^ 2 * (cosBn ^ 2 + sinBn ^ 2)) by ring.
  rewrite Hs. ring.
Qed.

Lemma lastLayerPropagation_straight_witness :
  snd (lastLayerPropagation (1 / 100) 1500 (1 / 2500)) ^ 2
  + fst (lastLayerPropagation (1 / 100) 1500 (1 / 2500)) ^ 2
  = (1500 * (1 / 100)) ^ 2.
Proof.
  apply (lastLayerPropagation_straight (1 / 100) 0 1500 (1 / 2500)). lra.
Defined.

(** X4.  A constant-gradient step is a chord of a circle of radius
    [radiusOfCurvature = 1/(snellConstant*gradient)]: with the start of the
    step at the origin of the (range, depth) plane, the start and the end
    both lie at that distance from the point
    [(radiusOfCurvature*sinBnm1, -radiusOfCurvature*cosBnm1)], as long as the
    radius is that of a division by a number other than zero and the two
    cosines are cosines. *)
Theorem constantGradient_circular_arc (c0 c1 gradient snellConstant : R) :
  snellConstant * gradient <> 0 ->
  (snellConstant * c0) ^ 2 <= 1 ->
  (snellConstant * c1) ^ 2 <= 1 ->
  let s := constantGradientRayTracing c0 c1 gradient snellConstant in
  let radiusOfCurvature := 1 / (snellConstant * gradient) in
  let centreR := radiusOfCurvature * sqrt (1 - (snellConstant * c0) ^ 2) in
  let centreZ := - radiusOfCurvature * (snellConstant * c0) in
  (0 - centreR) ^ 2 + (0 - centreZ) ^ 2 = radiusOfCurvature ^ 2 /\
  (deltaR s - centreR) ^ 2 + (deltaZ s - centreZ) ^ 2 = radiusOfCurvature ^ 2.
Proof.
  intros _ H0 H1. unfold constantGradientRayTracing. cbn [deltaR deltaZ].
  pose proof (sinBn_squared _ H0) as Hs0.
  pose proof (sinBn_squared _ H1) as Hs1.
  set (cosBnm1 := snellConstant * c0) in *.
  set (cosBn := snellConstant * c1) in *.
  set (sinBnm1 := sqrt (1 - cosBnm1 ^ 2)) in *.
  set (sinBn := sqrt (1 - cosBn ^ 2)) in *.
  set (r := 1 / (snellConstant * gradient)).
  split.
  - replace ((0 - r * sinBnm1) ^ 2 + (0 - - r * cosBnm1) ^ 2)
      with (r ^ 2 * (sinBnm1 ^ 2 + cosBnm1 ^ 2)) by ring.
    rewrite Hs0. ring.
  - replace ((r * (sinBnm1 - sinBn) - r * sinBnm1) ^ 2
             + (r * (cosBn - cosBnm1) - - r * cosBnm1) ^ 2)
      with (r ^ 2 * (sinBn ^ 2 + cosBn ^ 2)) by ring.
    rewrite Hs1. ring.
Qed.

Lemma constantGradient_circular_arc_witness :
  (deltaR (constantGradientRayTracing 1500 1000 (-125/3) (1 / 2500))
   - 1 / (1 / 2500 * (-125/3)) * sqrt (1 - (1 / 2500 * 1500) ^ 2)) ^ 2
  + (deltaZ (constantGradientRayTracing 1500 1000 (-125/3) (1 / 2500))
     - - (1 / (1 / 2500 * (-125/3))) * (1 / 2500 * 1500)) ^ 2
  = (1 / (1 / 2500 * (-125/3))) ^ 2.
Proof.
  apply (constantGradient_circular_arc 1500 1000 (-125/3) (1 / 2500));
    [intros E | |]; lra.
Defined.

(** X5.  A constant-gradient step can be walked backwards: with the two
    speeds exchanged (both of the same sign) and the same gradient, the step
    has the opposite range and depth and takes the same time, as long as
    neither the gradient nor the Snell constant is zero and the two cosines
    are cosines. *)
Theorem constantGradient_reversed (c0 c1 gradient snellConstant : R) :
  gradient <> 0 ->
  snellConstant <> 0 ->
  (snellConstant * c0) ^ 2 <= 1 ->
  (snellConstant * c1) ^ 2 <= 1 ->
  0 < c0 * c1 ->
  let forth := constantGradientRayTracing c0 c1 gradient snellConstant in
  let back := constantGradientRayTracing c1 c0 gradient snellConstant in
  deltaZ back = - deltaZ forth /\
  deltaR back = - deltaR forth /\
  deltaTravelTime back = deltaTravelTime forth.
Proof.
  intros _ _ _ _ Hc. unfold constantGradientRayTracing.
  cbn [deltaR deltaZ deltaTravelTime].
  set (sinBnm1 := sqrt (1 - (snellConstant * c0) ^ 2)).
  set (sinBn := sqrt (1 - (snellConstant * c1) ^ 2)).
  split; [ring|]. split; [ring|].
  assert (H0 : c0 <> 0) by (intros ->; lra).
  assert (H1 : c1 <> 0) by (intros ->; lra).
  assert (Hs0 : 0 < 1 + sinBnm1) by (pose proof (sqrt_pos (1 - (snellConstant * c0) ^ 2)); unfold sinBnm1; lra).
  assert (Hs1 : 0 < 1 + sinBn) by (pose proof (sqrt_pos (1 - (snellConstant * c1) ^ 2)); unfold sinBn; lra).
  assert (Hq : 0 < c1 / c0).
  { replace (c1 / c0) with (c0 * c1 / (c0 * c0)) by (field; auto).
    apply Rdiv_lt_0_compat; [exact Hc | nra]. }
  assert (Hx : 0 < c1 / c0 * ((1 + sinBnm1) / (1 + sinBn))).
  { apply Rmult_lt_0_compat; [exact Hq|].
    apply Rdiv_lt_0_compat; assumption. }
  replace (c0 / c1 * ((1 + sinBn) / (1 + sinBnm1)))
    with (/ (c1 / c0 * ((1 + sinBnm1) / (1 + sinBn)))) by (field; repeat split; lra).
  rewrite ln_Rinv by exact Hx.
  rewrite Ropp_mult_distr_r_reverse. apply Rabs_Ropp.
Qed.

Lemma constantGradient_reversed_witness :
  deltaTravelTime (constantGradientRayTracing 1480 1500 (2/5) (1 / 2500))
  = deltaTravelTime (constantGradientRayTracing 1500 1480 (2/5) (1 / 2500)).
Proof.
  apply (constantGradient_reversed 1500 1480 (2/5) (1 / 2500));
    [intros E | intros E | | |]; lra.
Defined.

(** X6.  Between two equal speeds the constant-gradient formula gives a step
    of no extent and no duration, whatever the gradient and the Snell
    constant, neither being zero, for which [cosBn] is a cosine. *)
Theorem constantGradient_equal_speeds (c gradient snellConstant : R) :
  gradient <> 0 ->
  snellConstant <> 0 ->
  (snellConstant * c) ^ 2 <= 1 ->
  c <> 0 ->
  constantGradientRayTracing c c gradient snellConstant = mkLayerStep 0 0 0.
Proof.
  intros _ _ _ Hc. unfold constantGradientRayTracing.
  set (sinBn := sqrt (1 - (snellConstant * c) ^ 2)).
  assert (Hs : 0 < 1 + sinBn)
    by (pose proof (sqrt_pos (1 - (snellConstant * c) ^ 2)); unfold sinBn; lra).
  apply layerStep_eq.
  - ring.
  - ring.
  - replace (c / c * ((1 + sinBn) / (1 + sinBn))) with 1 by (field; split; lra).
    rewrite ln_1, Rmult_0_r. apply Rabs_R0.
Qed.

Lemma constantGradient_equal_speeds_witness :
  constantGradientRayTracing 1500 1500 7 (1 / 2500) = mkLayerStep 0 0 0.
Proof.
  apply (constantGradient_equal_speeds 1500 7 (1 / 2500));
    [intros E | intros E | | intros E]; lra.
Defined.

Lemma constantGradient_deltaZ (c0 c1 g snellConstant : R) :
  snellConstant <> 0 -> g <> 0 ->
  deltaZ (constantGradientRayTracing c0 c1 g snellConstant) = (c1 - c0) / g.
Proof.
  intros Hp Hg. unfold constantGradientRayTracing. cbn [deltaZ].
  field. split; assumption.
Qed.

Lemma gradient_above_epsilon (g : R) : ~ Rabs g < gradientEpsilon -> g <> 0.
Proof. intros H ->. apply H. apply Rabs_0_epsilon. Qed.

Lemma transducerLayer_spans (ping : Ping) (svp : SoundVelocityProfile)
  (snellConstant : R) (svpCutoffIndex : N) (s : LayerStep) :
  snellConstant <> 0 ->
  transducerLayer ping svp snellConstant svpCutoffIndex = Ok s ->
  exists z1,
    coeff (getDepths svp) svpCutoffIndex = Ok z1 /\
    z1 <> getTransducerDepth ping /\
    deltaZ s = z1 - getTransducerDepth ping.
Proof.
  intros Hp H. unfold transducerLayer in H.
  apply bind_Ok in H. destruct H as [z1 [Ez H]].
  apply bind_Ok in H. destruct H as [c1 [_ H]].
  apply bind_Ok in H. destruct H as [g [Eg H]].
  unfold soundSpeedGradient in Eg.
  destruct (Req_dec_T z1 (getTransducerDepth ping)) as [|Hz]; [discriminate|].
  injection Eg as <-.
  exists z1. split; [exact Ez|]. split; [exact Hz|].
  destruct (Rlt_dec _ gradientEpsilon) as [_|Hg]; injection H as <-.
  - reflexivity.
  - apply gradient_above_epsilon in Hg.
    rewrite constantGradient_deltaZ by assumption.
    assert (Hc : c1 - getSurfaceSoundSpeed ping <> 0).
    { intros E. apply Hg. rewrite E. unfold Rdiv. ring. }
    field. split; [lra | exact Hc].
Qed.

(** X7.  For a ray that is not vertical, the depth a constant-gradient step
    covers is the difference of the two speeds over the gradient; so the
    transducer-layer step, whichever formula it takes, covers exactly the
    depth from the transducer to the sample at the cutoff index. *)
Theorem transducerLayer_depth (ping : Ping) (svp : SoundVelocityProfile)
  (snellConstant : R) (svpCutoffIndex : N) (s : LayerStep) :
  snellConstant <> 0 ->
  transducerLayer ping svp snellConstant svpCutoffIndex = Ok s ->
  (forall c0 c1 g, g <> 0 ->
     deltaZ (constantGradientRayTracing c0 c1 g snellConstant) = (c1 - c0) / g) /\
  exists z1,
    coeff (getDepths svp) svpCutoffIndex = Ok z1 /\
    z1 <> getTransducerDepth ping /\
    deltaZ s = z1 - getTransducerDepth ping.
Proof.
  intros Hp H. split.
  - intros c0 c1 g Hg. apply constantGradient_deltaZ; assumption.
  - eapply transducerLayer_spans; eassumption.
Qed.

Lemma transducerLayer_depth_witness :
  exists z1,
    coeff (getDepths Samples.twoLayers) 0 = Ok z1 /\
    z1 <> getTransducerDepth (Samples.nadirPing 0 (1/20)) /\
    deltaZ (mkLayerStep 12 9 (1 / 100))
    = z1 - getTransducerDepth (Samples.nadirPing 0 (1/20)).
Proof.
  apply (transducerLayer_depth (Samples.nadirPing 0 (1/20)) Samples.twoLayers
           (1 / 2500) 0 (mkLayerStep 12 9 (1 / 100))).
  - lra.
  - apply transducerLayer_twoLayers.
Defined.

(** X8.  [soundSpeedGradient] fails exactly when the two depths are equal,
    with both depths in the failure.  Otherwise it returns the slope [g] of
    the line through the two samples, [c1 = c0 + g * (z1 - z0)], and the same
    slope when the two samples are exchanged. *)
Theorem soundSpeedGradient_slope (z0 c0 z1 c1 : R) :
  (z1 = z0 -> soundSpeedGradient z0 c0 z1 c1 = Raise (InvalidArgument z0 z1)) /\
  (z1 <> z0 ->
   exists g,
     soundSpeedGradient z0 c0 z1 c1 = Ok g /\
     c1 = c0 + g * (z1 - z0) /\
     soundSpeedGradient z1 c1 z0 c0 = Ok g).
Proof.
  unfold soundSpeedGradient. split; intros H.
  - destruct (Req_dec_T z1 z0); [reflexivity | contradiction].
  - exists ((c1 - c0) / (z1 - z0)).
    destruct (Req_dec_T z1 z0); [contradiction|].
    destruct (Req_dec_T z0 z1); [exfalso; auto|].
    split; [reflexivity|]. split.
    + field. lra.
    + f_equal. field. split; lra.
Qed.

Lemma soundSpeedGradient_slope_witness :
  soundSpeedGradient 0 1500 0 1480 = Raise (InvalidArgument 0 0) /\
  exists g,
    soundSpeedGradient 0 1500 50 1480 = Ok g /\
    1480 = 1500 + g * (50 - 0) /\
    soundSpeedGradient 50 1480 0 1500 = Ok g.
Proof.
  split.
  - apply (soundSpeedGradient_slope 0 1500 0 1480). reflexivity.
  - apply (soundSpeedGradient_slope 0 1500 50 1480). lra.
Defined.

(** * Further properties of the launch vector geometry *)

Lemma normalize_unit (v : Vector3d) :
  v <> (0, 0, 0) -> dot3 (normalize v) (normalize v) = 1.
Proof.
  destruct v as [[x y] z]. intros Hv. unfold normalize.
  assert (Hpos : 0 < x * x + y * y + z * z).
  { destruct (Req_dec_T x 0) as [->|Hx]; [|nra].
    destruct (Req_dec_T y 0) as [->|Hy]; [|nra].
    destruct (Req_dec_T z 0) as [->|Hz]; [|nra].
    exfalso. apply Hv. reflexivity. }
  destruct (Rlt_dec 0 (x * x + y * y + z * z)); [|contradiction].
  unfold dot3.
  pose proof (sqrt_sqrt (x * x + y * y + z * z) (Rlt_le _ _ Hpos)) as Hs.
  pose proof (sqrt_lt_R0 _ Hpos) as Hn.
  set (n := sqrt (x * x + y * y + z * z)) in *.
  replace (x / n * (x / n) + y / n * (y / n) + z / n * (z / n))
    with ((x * x + y * y + z * z) / (n * n)) by (field; lra).
  rewrite Hs. field. lra.
Qed.

(** X9.  When the two matrices keep lengths, as rotation matrices do, and
    [sonar2cartesian] gives a vector that is not zero, the launch vector in
    the navigation frame is a unit vector: its third component lies in
    [-1, 1], where [asin] is defined, the sine of [beta0] is that component
    and its cosine is the length of the horizontal part. *)
Theorem launchVectorNav_unit
  (sonar2cartesian : R -> R -> R -> Vector3d) (ping : Ping)
  (boresightMatrix imu2nav : Matrix3d) (x y z : R) :
  isometry boresightMatrix ->
  isometry imu2nav ->
  sonar2cartesian (getAlongTrackAngle ping) (getAcrossTrackAngle ping) 1 <> (0, 0, 0) ->
  launchVectorNav sonar2cartesian ping boresightMatrix imu2nav = (x, y, z) ->
  x ^ 2 + y ^ 2 + z ^ 2 = 1 /\
  -1 <= z <= 1 /\
  sin (beta0 sonar2cartesian ping boresightMatrix imu2nav) = z /\
  cos (beta0 sonar2cartesian ping boresightMatrix imu2nav) = sqrt (x ^ 2 + y ^ 2).
Proof.
  intros HB HM Hv E.
  assert (Hu : x ^ 2 + y ^ 2 + z ^ 2 = 1).
  { pose proof (normalize_unit _ Hv) as Hn.
    rewrite <- HB, <- HM in Hn. unfold launchVectorNav in E. rewrite E in Hn.
    unfold dot3 in Hn. lra. }
  assert (Hz : -1 <= z <= 1) by nra.
  split; [exact Hu|]. split; [exact Hz|].
  unfold beta0, launchVectorParameters. rewrite E. cbn [fst snd].
  split; [apply sin_asin; exact Hz|].
  rewrite cos_asin by exact Hz. f_equal. unfold Rsqr. lra.
Qed.

Lemma isometry_identity3 : isometry identity3.
Proof.
  intros [[x y] z]. unfold matVec, identity3, dot3. ring.
Qed.

Lemma sphericalBeam_nadir_nonzero :
  Samples.sphericalBeam (getAlongTrackAngle (Samples.nadirPing 0 (1/20)))
    (getAcrossTrackAngle (Samples.nadirPing 0 (1/20))) 1 <> (0, 0, 0).
Proof.
  simpl. rewrite sphericalBeam_nadir. intros H. inversion H. lra.
Qed.

Lemma launchVectorNav_unit_witness :
  (3/5) ^ 2 + 0 ^ 2 + (4/5) ^ 2 = 1 /\
  -1 <= 4/5 <= 1 /\
  sin (beta0 Samples.sphericalBeam (Samples.nadirPing 0 (1/20)) identity3
         Samples.pitched) = 4/5 /\
  cos (beta0 Samples.sphericalBeam (Samples.nadirPing 0 (1/20)) identity3
         Samples.pitched) = sqrt ((3/5) ^ 2 + 0 ^ 2).
Proof.
  apply (launchVectorNav_unit Samples.sphericalBeam (Samples.nadirPing 0 (1/20))
           identity3 Samples.pitched (3/5) 0 (4/5)).
  - exact isometry_identity3.
  - exact pitched_rotation.
  - exact sphericalBeam_nadir_nonzero.
  - apply launchVectorNav_pitched.
Defined.

(** X10.  For a unit launch vector with a horizontal part, the three values
    [launchVectorParameters] returns give the vector back:
    [(cos beta0 * sinAz, cos beta0 * cosAz, sin beta0)], and the sine and the
    cosine of the azimuth are those of one angle. *)
Theorem launchVectorParameters_inverse
  (sonar2cartesian : R -> R -> R -> Vector3d) (ping : Ping)
  (boresightMatrix imu2nav : Matrix3d) (x y z : R) :
  launchVectorNav sonar2cartesian ping boresightMatrix imu2nav = (x, y, z) ->
  x ^ 2 + y ^ 2 + z ^ 2 = 1 ->
  0 < sqrt (x ^ 2 + y ^ 2) ->
  let b := beta0 sonar2cartesian ping boresightMatrix imu2nav in
  let sA := sinAz sonar2cartesian ping boresightMatrix imu2nav in
  let cA := cosAz sonar2cartesian ping boresightMatrix imu2nav in
  (x, y, z) = (cos b * sA, cos b * cA, sin b) /\
  sA ^ 2 + cA ^ 2 = 1.
Proof.
  intros E Hu Hn. cbv zeta. split.
  - assert (Hz : -1 <= z <= 1) by nra.
    unfold beta0, sinAz, cosAz, launchVectorParameters. rewrite E. cbn [fst snd].
    destruct (Rlt_dec 0 (sqrt (x ^ 2 + y ^ 2))); [|contradiction].
    rewrite sin_asin, cos_asin by exact Hz.
    replace (1 - Rsqr z) with (x ^ 2 + y ^ 2) by (unfold Rsqr; lra).
    apply pair3_eq; try reflexivity; field; lra.
  - eapply azimuth_unit; eauto.
Qed.

Lemma launchVectorParameters_inverse_witness :
  (3/5, 0, 4/5)
  = (cos (beta0 Samples.sphericalBeam (Samples.nadirPing 0 (1/20)) identity3
            Samples.pitched)
     * sinAz Samples.sphericalBeam (Samples.nadirPing 0 (1/20)) identity3
         Samples.pitched,
     cos (beta0 Samples.sphericalBeam (Samples.nadirPing 0 (1/20)) identity3
            Samples.pitched)
     * cosAz Samples.sphericalBeam (Samples.nadirPing 0 (1/20)) identity3
         Samples.pitched,
     sin (beta0 Samples.sphericalBeam (Samples.nadirPing 0 (1/20)) identity3
            Samples.pitched)).
Proof.
  apply (launchVectorParameters_inverse Samples.sphericalBeam
           (Samples.nadirPing 0 (1/20)) identity3 Samples.pitched (3/5) 0 (4/5)).
  - apply launchVectorNav_pitched.
  - lra.
  - replace (sqrt ((3/5) ^ 2 + 0 ^ 2)) with (3/5); [lra|].
    symmetry. apply sqrt_of_square; lra.
Defined.

(** X11.  For a launch vector whose third component lies in [-1, 1], where
    [asin] is defined, [beta0] lies between -pi/2 and pi/2, so its cosine
    lies in [0, 1]: the Snell constant has the sign of the surface sound
    speed, and at the surface sound speed [cosBn] is that cosine, so the
    square root of [1 - cosBn^2] is taken of a number that is not negative. *)
Theorem snellConstant_at_surface
  (sonar2cartesian : R -> R -> R -> Vector3d) (ping : Ping)
  (boresightMatrix imu2nav : Matrix3d) :
  let b := beta0 sonar2cartesian ping boresightMatrix imu2nav in
  let p := snellConstant sonar2cartesian ping boresightMatrix imu2nav in
  -1 <= snd (launchVectorNav sonar2cartesian ping boresightMatrix imu2nav) <= 1 ->
  0 < getSurfaceSoundSpeed ping ->
  - (PI / 2) <= b <= PI / 2 /\
  0 <= cos b <= 1 /\
  0 <= p /\
  p * getSurfaceSoundSpeed ping = cos b /\
  0 <= 1 - (p * getSurfaceSoundSpeed ping) ^ 2.
Proof.
  intros b p _ Hc.
  assert (Hb : - (PI / 2) <= b <= PI / 2).
  { unfold b, beta0, launchVectorParameters.
    destruct (launchVectorNav _ _ _ _) as [[x y] z]. cbn [snd]. apply asin_bound. }
  assert (Hcos : 0 <= cos b <= 1).
  { split; [apply cos_ge_0; lra | apply COS_bound]. }
  assert (Hp : p * getSurfaceSoundSpeed ping = cos b).
  { unfold p. apply snell_surface. lra. }
  split; [exact Hb|]. split; [exact Hcos|]. split.
  - unfold p, snellConstant. fold b. apply Rmult_le_pos; [lra|].
    left. apply Rinv_0_lt_compat. exact Hc.
  - split; [exact Hp|]. rewrite Hp. nra.
Qed.

Lemma snellConstant_at_surface_witness :
  0 <= snellConstant Samples.sphericalBeam (Samples.nadirPing 0 (1/20)) identity3
         Samples.pitched.
Proof.
  apply (snellConstant_at_surface Samples.sphericalBeam (Samples.nadirPing 0 (1/20))
           identity3 Samples.pitched).
  - rewrite launchVectorNav_pitched. cbn [snd]. lra.
  - simpl. lra.
Defined.

(** * Further properties of the accumulators *)

Section Accumulators.

Variable sonar2cartesian : R -> R -> R -> Vector3d.
Variable ping : Ping.
Variable svp : SoundVelocityProfile.
Variable boresightMatrix imu2nav : Matrix3d.

Local Abbreviation p := (snellConstant sonar2cartesian ping boresightMatrix imu2nav).
Local Abbreviation cutoff := (svpCutoffIndex ping svp).
Local Abbreviation start := (initialState ping svp).
Local Abbreviation first := (firstLayer sonar2cartesian ping svp boresightMatrix imu2nav).
Local Abbreviation planarFirst :=
  (planarFirstLayer sonar2cartesian ping svp boresightMatrix imu2nav).
Local Abbreviation walk := (layerWalk sonar2cartesian ping svp boresightMatrix imu2nav).
Local Abbreviation planarWalk :=
  (planarLayerWalk sonar2cartesian ping svp boresightMatrix imu2nav).
Local Abbreviation state3D :=
  (accumulated sonar2cartesian ping svp boresightMatrix imu2nav).
Local Abbreviation state2D :=
  (planarAccumulated sonar2cartesian ping svp boresightMatrix imu2nav).
Local Abbreviation trace3D :=
  (rayTrace sonar2cartesian ping svp boresightMatrix imu2nav).
Local Abbreviation trace2D :=
  (planarRayTrace sonar2cartesian ping svp boresightMatrix imu2nav).

(** *** The cumulative time stays below the target *)

Lemma firstLayer_time (st : RayState) :
  0 <= oneWayTravelTime ping -> first = Ok st ->
  cumulativeRaytraceTime st <= oneWayTravelTime ping.
Proof.
  intros H0. unfold firstLayer. intros H.
  destruct (cutoff <? getSize svp)%N; [|injection H as <-; exact H0].
  apply bind_Ok in H. destruct H as [s [_ H]].
  destruct (fits ping (setCurrentLayer start s)) eqn:F; injection H as <-.
  - apply fits_true in F. exact F.
  - exact H0.
Qed.

Lemma layerWalk_time (n : nat) :
  forall st st', cumulativeRaytraceTime st <= oneWayTravelTime ping ->
  walk n st = Ok st' ->
  cumulativeRaytraceTime st' <= oneWayTravelTime ping.
Proof.
  induction n as [|n IH]; intros st st' Hst H.
  - simpl in H.
    destruct (walkGuard ping svp st); [discriminate | injection H as <-; exact Hst].
  - destruct (walkGuard ping svp st) eqn:G.
    + rewrite layerWalk_body in H by assumption.
      apply bind_Ok in H. destruct H as [s [_ H]].
      destruct (fits ping (setCurrentLayer st s)) eqn:F.
      * eapply IH; [|exact H]. apply fits_true in F. exact F.
      * injection H as <-. exact Hst.
    + rewrite layerWalk_exit in H by assumption. injection H as <-. exact Hst.
Qed.

Lemma accumulated_of_planar (rays0 : list Vector2d) (times0 : list R)
  (pst : PlanarState) :
  state2D rays0 times0 = Ok pst -> state3D = Ok (ray pst).
Proof.
  intros H.
  pose proof (planarAccumulated_ray sonar2cartesian ping svp boresightMatrix imu2nav
                rays0 times0) as Hray.
  rewrite H in Hray. symmetry. exact Hray.
Qed.

Lemma accumulated_time (st : RayState) :
  0 <= oneWayTravelTime ping -> state3D = Ok st ->
  cumulativeRaytraceTime st <= oneWayTravelTime ping.
Proof.
  intros H0 H. unfold accumulated in H. apply bind_Ok in H.
  destruct H as [st1 [H1 Hw]].
  eapply layerWalk_time; [|exact Hw]. apply firstLayer_time; assumption.
Qed.

(** *** The depth reached *)

Section Depth.

Hypothesis consistent : consistentProfile svp.
Hypothesis derived : derivedGradients svp.
Hypothesis slanted : p <> 0.

Lemma profileLayer_spans (i : N) (s : LayerStep) :
  (i < sizeMinusOne svp)%N ->
  profileLayer svp p i = Ok s ->
  exists z0 z1,
    coeff (getDepths svp) i = Ok z0 /\
    coeff (getDepths svp) (i + 1) = Ok z1 /\
    deltaZ s = z1 - z0.
Proof.
  destruct consistent as (H1 & Hd & Hs & Hg).
  rewrite sizeMinusOne_nonempty by exact H1. intros Hi H.
  destruct (coeff_in_range (getDepths svp) i) as [z0 [Ez0 _]]; [lia|].
  destruct (coeff_in_range (getDepths svp) (i + 1)) as [z1 [Ez1 _]]; [lia|].
  exists z0, z1. split; [exact Ez0|]. split; [exact Ez1|].
  unfold profileLayer in H.
  apply bind_Ok in H. destruct H as [g [Eg H]].
  destruct (Rlt_dec (Rabs g) gradientEpsilon) as [_|Hne].
  - rewrite Ez0, Ez1 in H. cbn [bind] in H.
    apply bind_Ok in H. destruct H as [c [_ H]]. injection H as <-. reflexivity.
  - apply bind_Ok in H. destruct H as [c0 [Ec0 H]].
    apply bind_Ok in H. destruct H as [c1 [Ec1 H]]. injection H as <-.
    pose proof (derived i g z0 z1 c0 c1 Eg Ez0 Ez1 Ec0 Ec1) as Hgrad.
    unfold soundSpeedGradient in Hgrad.
    destruct (Req_dec_T z1 z0) as [|Hz]; [discriminate|].
    injection Hgrad as Hgrad.
    apply gradient_above_epsilon in Hne.
    rewrite constantGradient_deltaZ by assumption.
    assert (Hc : c1 - c0 <> 0).
    { intros E. apply Hne. rewrite <- Hgrad, E. unfold Rdiv. ring. }
    rewrite <- Hgrad. field. split; [lra | exact Hc].
Qed.

Lemma layerWalk_depth (n : nat) :
  forall st st',
  (exists z, coeff (getDepths svp) (currentLayerIndex st) = Ok z /\
             cumulativeRayZ st = z - getTransducerDepth ping) ->
  walk n st = Ok st' ->
  exists z, coeff (getDepths svp) (currentLayerIndex st') = Ok z /\
            cumulativeRayZ st' = z - getTransducerDepth ping.
Proof.
  induction n as [|n IH]; intros st st' Hst H.
  - simpl in H.
    destruct (walkGuard ping svp st); [discriminate | injection H as <-; exact Hst].
  - destruct (walkGuard ping svp st) eqn:G.
    + rewrite layerWalk_body in H by assumption.
      apply bind_Ok in H. destruct H as [s [Es H]].
      destruct (fits ping (setCurrentLayer st s)).
      * eapply IH; [|exact H].
        apply profileLayer_spans in Es; [|exact (walkGuard_index ping svp st G)].
        destruct Es as [z0 [z1 (Ez0 & Ez1 & Hdz)]].
        destruct Hst as [z [Ez HZ]]. rewrite Ez0 in Ez. injection Ez as <-.
        exists z1. simpl. split; [exact Ez1|]. rewrite HZ, Hdz. ring.
      * injection H as <-. exact Hst.
    + rewrite layerWalk_exit in H by assumption. injection H as <-. exact Hst.
Qed.

Lemma accumulated_depth_reached (s : LayerStep) (st : RayState) :
  (cutoff < getSize svp)%N ->
  transducerLayer ping svp p cutoff = Ok s ->
  deltaTravelTime s <= oneWayTravelTime ping ->
  state3D = Ok st ->
  exists z, coeff (getDepths svp) (currentLayerIndex st) = Ok z /\
            cumulativeRayZ st = z - getTransducerDepth ping.
Proof.
  intros Hc Et Hfit H. unfold accumulated in H.
  apply bind_Ok in H. destruct H as [st1 [H1 Hw]].
  eapply layerWalk_depth; [|exact Hw].
  unfold firstLayer in H1. apply N.ltb_lt in Hc. rewrite Hc, Et in H1.
  cbn [bind] in H1.
  rewrite (proj2 (fits_true ping _)) in H1 by (simpl; lra).
  injection H1 as <-.
  apply transducerLayer_spans in Et; [|exact slanted].
  destruct Et as [z1 (Ez & _ & Hdz)].
  exists z1. simpl. split; [exact Ez|]. rewrite Hdz. ring.
Qed.

End Depth.

(** *** Short travel times *)

Lemma planarRayTrace_of_state (rays0 : list Vector2d) (times0 : list R)
  (pst : PlanarState) (c : R) :
  state2D rays0 times0 = Ok pst ->
  lastLayerSpeed ping svp (ray pst) = Ok c ->
  trace2D rays0 times0 =
  let t := oneWayTravelTime ping - cumulativeRaytraceTime (ray pst) in
  let step := lastLayerPropagation t c p in
  Ok ((cumulativeRayX (ray pst) + snd step, cumulativeRayZ (ray pst) + fst step),
      layerRays pst ++ [(snd step, fst step)],
      layerTravelTimes pst ++ [t]).
Proof.
  intros Hs Hc. unfold planarRayTrace. rewrite Hs. cbn [bind]. rewrite Hc.
  reflexivity.
Qed.

Lemma planarAccumulated_first_only (rays0 : list Vector2d) (times0 : list R)
  (pst : PlanarState) :
  planarFirst rays0 times0 = Ok pst ->
  fits ping (ray pst) = false ->
  state2D rays0 times0 = Ok pst.
Proof.
  intros H1 F. unfold planarAccumulated. rewrite H1. cbn [bind].
  apply planarLayerWalk_exit. unfold walkGuard. rewrite F. reflexivity.
Qed.

Lemma trace3D_of_trace2D (rays0 : list Vector2d) (times0 : list R)
  (r : Vector2d * list Vector2d * list R) :
  trace2D rays0 times0 = Ok r ->
  trace3D = Ok (reorient (sinAz sonar2cartesian ping boresightMatrix imu2nav)
                  (cosAz sonar2cartesian ping boresightMatrix imu2nav) (aggregate r)).
Proof.
  intros H. rewrite (rayTrace_planarRayTrace _ _ _ _ _ rays0 times0), H. reflexivity.
Qed.

Lemma first_layer_too_long_planar (s : LayerStep) (c : R)
  (rays0 : list Vector2d) (times0 : list R) :
  (cutoff < getSize svp)%N ->
  transducerLayer ping svp p cutoff = Ok s ->
  oneWayTravelTime ping < deltaTravelTime s ->
  coeff (getSpeeds svp) cutoff = Ok c ->
  let step := lastLayerPropagation (oneWayTravelTime ping) c p in
  trace2D rays0 times0
  = Ok ((snd step, fst step), rays0 ++ [(snd step, fst step)],
        times0 ++ [oneWayTravelTime ping]).
Proof.
  intros Hc Et Hlong Ec. apply N.ltb_lt in Hc.
  assert (F : fits ping (setCurrentLayer start s) = false).
  { apply fits_false. simpl. lra. }
  assert (H1 : planarFirst rays0 times0
               = Ok (mkPlanarState (setCurrentLayer start s) rays0 times0)).
  { unfold planarFirstLayer. rewrite Hc, Et. cbn [bind]. rewrite F. reflexivity. }
  rewrite (planarRayTrace_of_state rays0 times0 _ c
             (planarAccumulated_first_only _ _ _ H1 F)).
  - cbv zeta. simpl.
    unfold lastLayerPropagation. simpl. repeat (f_equal; try lra).
  - unfold lastLayerSpeed. rewrite Hc. exact Ec.
Qed.

Lemma walk_not_entered_planar (s : LayerStep) (c : R)
  (rays0 : list Vector2d) (times0 : list R) :
  (cutoff < getSize svp)%N ->
  transducerLayer ping svp p cutoff = Ok s ->
  deltaTravelTime s <= oneWayTravelTime ping ->
  oneWayTravelTime ping < 2 * deltaTravelTime s ->
  coeff (getSpeeds svp) cutoff = Ok c ->
  state2D rays0 times0
  = Ok (pushLayer (accumulate (setCurrentLayer start s)) rays0 times0) /\
  let t := oneWayTravelTime ping - deltaTravelTime s in
  let step := lastLayerPropagation t c p in
  trace2D rays0 times0
  = Ok ((deltaR s + snd step, deltaZ s + fst step),
        rays0 ++ [(deltaR s, deltaZ s); (snd step, fst step)],
        times0 ++ [deltaTravelTime s; t]).
Proof.
  intros Hc Et Hfit Htwice Ec. apply N.ltb_lt in Hc.
  assert (F : fits ping (setCurrentLayer start s) = true).
  { apply fits_true. simpl. lra. }
  assert (H1 : planarFirst rays0 times0
               = Ok (pushLayer (accumulate (setCurrentLayer start s)) rays0 times0)).
  { unfold planarFirstLayer. rewrite Hc, Et. cbn [bind]. rewrite F. reflexivity. }
  assert (F2 : fits ping (ray (pushLayer (accumulate (setCurrentLayer start s))
                                 rays0 times0)) = false).
  { apply fits_false. simpl. lra. }
  pose proof (planarAccumulated_first_only _ _ _ H1 F2) as Hacc.
  split; [exact Hacc|].
  rewrite (planarRayTrace_of_state rays0 times0 _ c Hacc).
  - cbv zeta. simpl. rewrite <- !app_assoc. simpl.
    unfold lastLayerPropagation. simpl. repeat (f_equal; try lra).
  - unfold lastLayerSpeed. rewrite Hc. exact Ec.
Qed.

(** *** The output vectors *)

Lemma pushLayer_prepend (rays0 : list Vector2d) (times0 : list R)
  (st : RayState) (rays : list Vector2d) (times : list R) :
  pushLayer st (rays0 ++ rays) (times0 ++ times)
  = prependState rays0 times0 (pushLayer st rays times).
Proof.
  unfold pushLayer, prependState. simpl. rewrite !app_assoc. reflexivity.
Qed.

Lemma planarLayerWalk_prepend (rays0 : list Vector2d) (times0 : list R) (n : nat) :
  forall pst,
  planarWalk n (prependState rays0 times0 pst)
  = mapOutcome (prependState rays0 times0) (planarWalk n pst).
Proof.
  induction n as [|n IH]; intros pst; simpl.
  - destruct (walkGuard ping svp (ray pst)); reflexivity.
  - destruct (walkGuard ping svp (ray pst)); [|reflexivity].
    destruct (profileLayer svp p (currentLayerIndex (ray pst))) as [s|f]; simpl;
      [|reflexivity].
    destruct (fits ping (setCurrentLayer (ray pst) s)); [|reflexivity].
    rewrite pushLayer_prepend. apply IH.
Qed.

Lemma planarFirstLayer_prepend (rays0 : list Vector2d) (times0 : list R) :
  planarFirst rays0 times0
  = mapOutcome (prependState rays0 times0) (planarFirst [] []).
Proof.
  unfold planarFirstLayer.
  destruct (cutoff <? getSize svp)%N.
  - destruct (transducerLayer ping svp p cutoff) as [s|f]; simpl; [|reflexivity].
    destruct (fits ping (setCurrentLayer start s)); simpl.
    + unfold pushLayer, prependState. simpl. reflexivity.
    + unfold prependState. simpl. rewrite !app_nil_r. reflexivity.
  - simpl. unfold prependState. simpl. rewrite !app_nil_r. reflexivity.
Qed.

Lemma planarAccumulated_prepend (rays0 : list Vector2d) (times0 : list R) :
  state2D rays0 times0 = mapOutcome (prependState rays0 times0) (state2D [] []).
Proof.
  unfold planarAccumulated. rewrite planarFirstLayer_prepend.
  destruct (planarFirst [] []) as [pst|f]; simpl; [|reflexivity].
  apply planarLayerWalk_prepend.
Qed.

Lemma planarRayTrace_prepend (rays0 : list Vector2d) (times0 : list R) :
  trace2D rays0 times0 = mapOutcome (prependResult rays0 times0) (trace2D [] []).
Proof.
  unfold planarRayTrace. rewrite planarAccumulated_prepend.
  destruct (state2D [] []) as [pst|f]; simpl; [|reflexivity].
  destruct (lastLayerSpeed ping svp (ray pst)) as [c|f]; simpl; [|reflexivity].
  unfold prependResult. simpl. rewrite <- !app_assoc. reflexivity.
Qed.

Lemma planarRayTrace_sum (rays0 : list Vector2d) (times0 : list R)
  (agg : Vector2d) (rays : list Vector2d) (times : list R) :
  trace2D rays0 times0 = Ok (agg, rays, times) ->
  exists rs,
    rays = rays0 ++ rs /\
    fst agg = sumR (map fst rs) /\
    snd agg = sumR (map snd rs).
Proof.
  intros H. apply planarRayTrace_Ok in H.
  destruct H as [pst [c (Hacc & _ & Hagg & Hr & _)]].
  apply planarAccumulated_appended in Hacc.
  destruct Hacc as [rs [ts (Hrs & _ & _ & _ & HX & HZ)]].
  eexists (rs ++ [_]).
  split; [rewrite Hr, Hrs, <- app_assoc; reflexivity|].
  rewrite Hagg, !map_app, !sumR_app, HX, HZ. simpl. split; ring.
Qed.

End Accumulators.

Lemma transducerLayer_twoLayers_pitched (T : R) :
  transducerLayer (Samples.nadirPing 0 T) Samples.twoLayers
    (snellConstant Samples.sphericalBeam (Samples.nadirPing 0 T) identity3
       Samples.pitched)
    (svpCutoffIndex (Samples.nadirPing 0 T) Samples.twoLayers)
  = Ok (mkLayerStep 12 9 (1 / 100)).
Proof.
  rewrite snellConstant_pitched, svpCutoffIndex_twoLayers.
  apply transducerLayer_twoLayers.
Qed.

Lemma cutoff_twoLayers_in_range (T : R) :
  (svpCutoffIndex (Samples.nadirPing 0 T) Samples.twoLayers
   < getSize Samples.twoLayers)%N.
Proof. rewrite svpCutoffIndex_twoLayers. reflexivity. Qed.

Lemma speed_twoLayers_at_cutoff (T : R) :
  coeff (getSpeeds Samples.twoLayers)
    (svpCutoffIndex (Samples.nadirPing 0 T) Samples.twoLayers) = Ok 1500.
Proof. rewrite svpCutoffIndex_twoLayers. reflexivity. Qed.

Lemma consistentProfile_twoLayers : consistentProfile Samples.twoLayers.
Proof.
  unfold consistentProfile. simpl. repeat split; reflexivity || lia || discriminate.
Qed.

Lemma derivedGradients_twoLayers : derivedGradients Samples.twoLayers.
Proof.
  intros i g z0 z1 c0 c1 Hg Hz0 Hz1 Hc0 Hc1.
  destruct i as [|q].
  - unfold coeff in *. simpl in *.
    injection Hg as <-. injection Hz0 as <-. injection Hz1 as <-.
    injection Hc0 as <-. injection Hc1 as <-.
    unfold soundSpeedGradient. destruct (Req_dec_T 24 12); [exfalso; lra|].
    f_equal. lra.
  - exfalso. unfold coeff in Hg. simpl in Hg.
    destruct (Pos2Nat.is_succ q) as [m Hm]. rewrite Hm in Hg. simpl in Hg.
    destruct m; discriminate.
Qed.

(** X12.  When the two-way travel time is not negative, the cumulative time
    of the committed layers never exceeds the one-way travel time, so the
    time handed to [lastLayerPropagation], the last entry of
    [layerTravelTimes], is not negative. *)
Theorem remaining_time_not_negative
  (sonar2cartesian : R -> R -> R -> Vector3d) (ping : Ping)
  (svp : SoundVelocityProfile) (boresightMatrix imu2nav : Matrix3d)
  (rays0 : list Vector2d) (times0 : list R)
  (agg : Vector2d) (rays : list Vector2d) (times : list R) :
  0 <= getTwoWayTravelTime ping ->
  planarRayTrace sonar2cartesian ping svp boresightMatrix imu2nav rays0 times0
    = Ok (agg, rays, times) ->
  exists (st : RayState) (ts : list R) (lastLayerTraveTime : R),
    accumulated sonar2cartesian ping svp boresightMatrix imu2nav = Ok st /\
    cumulativeRaytraceTime st <= oneWayTravelTime ping /\
    times = times0 ++ ts ++ [lastLayerTraveTime] /\
    lastLayerTraveTime = oneWayTravelTime ping - cumulativeRaytraceTime st /\
    0 <= lastLayerTraveTime.
Proof.
  intros H0 H.
  assert (H0' : 0 <= oneWayTravelTime ping) by (unfold oneWayTravelTime; lra).
  apply planarRayTrace_Ok in H. destruct H as [pst [c (Hacc & _ & _ & _ & Ht)]].
  pose proof (accumulated_of_planar _ _ _ _ _ _ _ _ Hacc) as H3.
  pose proof (accumulated_time _ _ _ _ _ _ H0' H3) as Hle.
  apply planarAccumulated_appended in Hacc.
  destruct Hacc as [rs [ts (_ & Hts & _ & _ & _ & _)]].
  exists (ray pst), ts, (oneWayTravelTime ping - cumulativeRaytraceTime (ray pst)).
  split; [exact H3|]. split; [exact Hle|].
  split; [rewrite Ht, Hts, <- app_assoc; reflexivity|].
  split; [reflexivity | lra].
Qed.

Lemma remaining_time_not_negative_witness :
  exists (st : RayState) (ts : list R) (lastLayerTraveTime : R),
    accumulated Samples.sphericalBeam (Samples.nadirPing 0 (1/20)) Samples.twoLayers
      identity3 Samples.pitched = Ok st /\
    cumulativeRaytraceTime st <= oneWayTravelTime (Samples.nadirPing 0 (1/20)) /\
    [1 / 100; 1 / 100; 1 / 20 / 2 - 1 / 50] = [] ++ ts ++ [lastLayerTraveTime] /\
    lastLayerTraveTime
    = oneWayTravelTime (Samples.nadirPing 0 (1/20)) - cumulativeRaytraceTime st /\
    0 <= lastLayerTraveTime.
Proof.
  apply (remaining_time_not_negative Samples.sphericalBeam
           (Samples.nadirPing 0 (1/20)) Samples.twoLayers identity3 Samples.pitched
           [] []
           (18 + 900 * (1 / 20 / 2 - 1 / 50), 24 + 1200 * (1 / 20 / 2 - 1 / 50))
           [(9, 12); (9, 12);
            (900 * (1 / 20 / 2 - 1 / 50), 1200 * (1 / 20 / 2 - 1 / 50))]).
  - simpl. lra.
  - apply (planarRayTrace_twoLayers (1/20) [] []). lra.
Defined.

(** X13.  On a consistent profile whose gradients are those of its samples,
    for a ray that is not vertical and a transducer-layer step that fits, the
    depth accumulated when the loop is left is the depth of the sample at
    [currentLayerIndex] minus the depth of the transducer: every committed
    step ends on a sample of the profile. *)
Theorem accumulated_depth
  (sonar2cartesian : R -> R -> R -> Vector3d) (ping : Ping)
  (svp : SoundVelocityProfile) (boresightMatrix imu2nav : Matrix3d)
  (s : LayerStep) (st : RayState) :
  let p := snellConstant sonar2cartesian ping boresightMatrix imu2nav in
  consistentProfile svp ->
  derivedGradients svp ->
  p <> 0 ->
  (svpCutoffIndex ping svp < getSize svp)%N ->
  transducerLayer ping svp p (svpCutoffIndex ping svp) = Ok s ->
  deltaTravelTime s <= oneWayTravelTime ping ->
  accumulated sonar2cartesian ping svp boresightMatrix imu2nav = Ok st ->
  exists z,
    coeff (getDepths svp) (currentLayerIndex st) = Ok z /\
    cumulativeRayZ st = z - getTransducerDepth ping.
Proof.
  intros p Hc Hd Hp Hcut Et Hfit H.
  eapply accumulated_depth_reached; eassumption.
Qed.

Lemma accumulated_depth_witness :
  exists st z,
    accumulated Samples.sphericalBeam (Samples.nadirPing 0 (1/20)) Samples.twoLayers
      identity3 Samples.pitched = Ok st /\
    coeff (getDepths Samples.twoLayers) (currentLayerIndex st) = Ok z /\
    cumulativeRayZ st = z - getTransducerDepth (Samples.nadirPing 0 (1/20)).
Proof.
  destruct (planarRayTrace_Ok _ _ _ _ _ _ _ _ _ _
              (planarRayTrace_twoLayers (1/20) [] [] ltac:(lra)))
    as [pst [c (Hacc & _)]].
  pose proof (accumulated_of_planar _ _ _ _ _ _ _ _ Hacc) as H3.
  exists (ray pst).
  destruct (accumulated_depth Samples.sphericalBeam (Samples.nadirPing 0 (1/20))
              Samples.twoLayers identity3 Samples.pitched
              (mkLayerStep 12 9 (1 / 100)) (ray pst)) as [z Hz].
  - exact consistentProfile_twoLayers.
  - exact derivedGradients_twoLayers.
  - rewrite snellConstant_pitched. lra.
  - apply cutoff_twoLayers_in_range.
  - apply transducerLayer_twoLayers_pitched.
  - unfold oneWayTravelTime. simpl. lra.
  - exact H3.
  - exists z. split; [exact H3 | exact Hz].
Defined.

(** X14.  When the cutoff index is in range and the transducer-layer step
    takes longer than the one-way travel time, nothing is committed and the
    loop is not entered: the whole trace is one [lastLayerPropagation] step
    for the one-way travel time, at the speed of the sample at the cutoff
    index (not at the surface sound speed), and one entry is appended to each
    output vector. *)
Theorem first_layer_too_long
  (sonar2cartesian : R -> R -> R -> Vector3d) (ping : Ping)
  (svp : SoundVelocityProfile) (boresightMatrix imu2nav : Matrix3d)
  (s : LayerStep) (c : R) (rays0 : list Vector2d) (times0 : list R) :
  let p := snellConstant sonar2cartesian ping boresightMatrix imu2nav in
  let step := lastLayerPropagation (oneWayTravelTime ping) c p in
  (svpCutoffIndex ping svp < getSize svp)%N ->
  transducerLayer ping svp p (svpCutoffIndex ping svp) = Ok s ->
  oneWayTravelTime ping < deltaTravelTime s ->
  coeff (getSpeeds svp) (svpCutoffIndex ping svp) = Ok c ->
  planarRayTrace sonar2cartesian ping svp boresightMatrix imu2nav rays0 times0
    = Ok ((snd step, fst step), rays0 ++ [(snd step, fst step)],
          times0 ++ [oneWayTravelTime ping]) /\
  rayTrace sonar2cartesian ping svp boresightMatrix imu2nav
    = Ok (reorient (sinAz sonar2cartesian ping boresightMatrix imu2nav)
            (cosAz sonar2cartesian ping boresightMatrix imu2nav)
            (snd step, fst step)).
Proof.
  intros p step Hcut Et Hlong Ec.
  pose proof (first_layer_too_long_planar sonar2cartesian ping svp boresightMatrix
                imu2nav s c rays0 times0 Hcut Et Hlong Ec) as H2.
  split; [exact H2|].
  apply (trace3D_of_trace2D _ _ _ _ _ _ _ _ H2).
Qed.

Lemma first_layer_too_long_witness :
  planarRayTrace Samples.sphericalBeam (Samples.nadirPing 0 (1/100))
    Samples.twoLayers identity3 Samples.pitched [] []
  = Ok ((snd (lastLayerPropagation
                (oneWayTravelTime (Samples.nadirPing 0 (1/100))) 1500
                (snellConstant Samples.sphericalBeam (Samples.nadirPing 0 (1/100))
                   identity3 Samples.pitched)),
         fst (lastLayerPropagation
                (oneWayTravelTime (Samples.nadirPing 0 (1/100))) 1500
                (snellConstant Samples.sphericalBeam (Samples.nadirPing 0 (1/100))
                   identity3 Samples.pitched))),
        [] ++ [(snd (lastLayerPropagation
                       (oneWayTravelTime (Samples.nadirPing 0 (1/100))) 1500
                       (snellConstant Samples.sphericalBeam
                          (Samples.nadirPing 0 (1/100)) identity3 Samples.pitched)),
                fst (lastLayerPropagation
                       (oneWayTravelTime (Samples.nadirPing 0 (1/100))) 1500
                       (snellConstant Samples.sphericalBeam
                          (Samples.nadirPing 0 (1/100)) identity3 Samples.pitched)))],
        [] ++ [oneWayTravelTime (Samples.nadirPing 0 (1/100))]).
Proof.
  apply (first_layer_too_long Samples.sphericalBeam (Samples.nadirPing 0 (1/100))
           Samples.twoLayers identity3 Samples.pitched
           (mkLayerStep 12 9 (1 / 100)) 1500 [] []).
  - apply cutoff_twoLayers_in_range.
  - apply transducerLayer_twoLayers_pitched.
  - unfold oneWayTravelTime. simpl. lra.
  - apply speed_twoLayers_at_cutoff.
Defined.

(** X15.  The loop condition adds the duration of the step computed last to a
    cumulative time that already contains it.  So when the transducer-layer
    step fits but twice its duration exceeds the one-way travel time, the
    loop is not entered, however short the next layers are: the rest of the
    time is spent in one [lastLayerPropagation] step at the speed of the
    sample at the cutoff index, and the planar trace appends two entries. *)
Theorem walk_not_entered
  (sonar2cartesian : R -> R -> R -> Vector3d) (ping : Ping)
  (svp : SoundVelocityProfile) (boresightMatrix imu2nav : Matrix3d)
  (s : LayerStep) (c : R) (rays0 : list Vector2d) (times0 : list R) :
  let p := snellConstant sonar2cartesian ping boresightMatrix imu2nav in
  let t := oneWayTravelTime ping - deltaTravelTime s in
  let step := lastLayerPropagation t c p in
  (svpCutoffIndex ping svp < getSize svp)%N ->
  transducerLayer ping svp p (svpCutoffIndex ping svp) = Ok s ->
  deltaTravelTime s <= oneWayTravelTime ping ->
  oneWayTravelTime ping < 2 * deltaTravelTime s ->
  coeff (getSpeeds svp) (svpCutoffIndex ping svp) = Ok c ->
  accumulated sonar2cartesian ping svp boresightMatrix imu2nav
    = Ok (accumulate (setCurrentLayer (initialState ping svp) s)) /\
  planarRayTrace sonar2cartesian ping svp boresightMatrix imu2nav rays0 times0
    = Ok ((deltaR s + snd step, deltaZ s + fst step),
          rays0 ++ [(deltaR s, deltaZ s); (snd step, fst step)],
          times0 ++ [deltaTravelTime s; t]).
Proof.
  intros p t step Hcut Et Hfit Htwice Ec.
  destruct (walk_not_entered_planar sonar2cartesian ping svp boresightMatrix
              imu2nav s c rays0 times0 Hcut Et Hfit Htwice Ec) as [Hacc H2].
  split; [|exact H2].
  apply (accumulated_of_planar _ _ _ _ _ _ _ _ Hacc).
Qed.

Lemma walk_not_entered_witness :
  accumulated Samples.sphericalBeam (Samples.nadirPing 0 (3/100)) Samples.twoLayers
    identity3 Samples.pitched
  = Ok (accumulate
          (setCurrentLayer (initialState (Samples.nadirPing 0 (3/100)) Samples.twoLayers)
             (mkLayerStep 12 9 (1 / 100)))).
Proof.
  apply (walk_not_entered Samples.sphericalBeam (Samples.nadirPing 0 (3/100))
           Samples.twoLayers identity3 Samples.pitched
           (mkLayerStep 12 9 (1 / 100)) 1500 [] []).
  - apply cutoff_twoLayers_in_range.
  - apply transducerLayer_twoLayers_pitched.
  - unfold oneWayTravelTime. simpl. lra.
  - unfold oneWayTravelTime. simpl. lra.
  - apply speed_twoLayers_at_cutoff.
Defined.

(** X16.  The aggregate [planarRayTrace] returns is the sum of the segments
    it has appended to [layerRays], the last one included: the ranges add up
    to the range and the depths to the depth. *)
Theorem aggregate_is_sum
  (sonar2cartesian : R -> R -> R -> Vector3d) (ping : Ping)
  (svp : SoundVelocityProfile) (boresightMatrix imu2nav : Matrix3d)
  (rays0 : list Vector2d) (times0 : list R)
  (agg : Vector2d) (rays : list Vector2d) (times : list R) :
  planarRayTrace sonar2cartesian ping svp boresightMatrix imu2nav rays0 times0
    = Ok (agg, rays, times) ->
  exists rs,
    rays = rays0 ++ rs /\
    fst agg = sumR (map fst rs) /\
    snd agg = sumR (map snd rs).
Proof. apply planarRayTrace_sum. Qed.

Lemma aggregate_is_sum_witness :
  exists rs,
    [(9, 12); (9, 12); (900 * (1 / 20 / 2 - 1 / 50), 1200 * (1 / 20 / 2 - 1 / 50))]
    = [] ++ rs /\
    fst (18 + 900 * (1 / 20 / 2 - 1 / 50), 24 + 1200 * (1 / 20 / 2 - 1 / 50))
    = sumR (map fst rs) /\
    snd (18 + 900 * (1 / 20 / 2 - 1 / 50), 24 + 1200 * (1 / 20 / 2 - 1 / 50))
    = sumR (map snd rs).
Proof.
  apply (aggregate_is_sum Samples.sphericalBeam (Samples.nadirPing 0 (1/20))
           Samples.twoLayers identity3 Samples.pitched [] []
           (18 + 900 * (1 / 20 / 2 - 1 / 50), 24 + 1200 * (1 / 20 / 2 - 1 / 50))
           [(9, 12); (9, 12);
            (900 * (1 / 20 / 2 - 1 / 50), 1200 * (1 / 20 / 2 - 1 / 50))]
           [1 / 100; 1 / 100; 1 / 20 / 2 - 1 / 50]).
  apply (planarRayTrace_twoLayers (1/20) [] []). lra.
Defined.

(** X17.  [planarRayTrace] never reads the two vectors it appends to: called
    with [layerRays] and [layerTravelTimes] already holding entries, it
    fails as it does on empty vectors, or returns the same aggregate and the
    same new entries, placed after those entries. *)
Theorem output_vectors_only_extended
  (sonar2cartesian : R -> R -> R -> Vector3d) (ping : Ping)
  (svp : SoundVelocityProfile) (boresightMatrix imu2nav : Matrix3d)
  (rays0 : list Vector2d) (times0 : list R) :
  planarRayTrace sonar2cartesian ping svp boresightMatrix imu2nav rays0 times0
  = mapOutcome (prependResult rays0 times0)
      (planarRayTrace sonar2cartesian ping svp boresightMatrix imu2nav [] []).
Proof. apply planarRayTrace_prepend. Qed.

(** * Properties of [Position] *)

Section PositionProperties.

Variable D2R : R.

Lemma callSetter_in_sync (p : Position) (c : SetterCall) :
  trigonometryInSync D2R p -> trigonometryInSync D2R (callSetter D2R p c).
Proof.
  unfold trigonometryInSync, getSlat, getClat, getSlon, getClon,
    getLatitude, getLongitude.
  destruct p as [t sla cla slo clo [[la lo] h]]. simpl.
  intros (H1 & H2 & H3 & H4).
  destruct c; simpl; repeat split; assumption || reflexivity.
Qed.

Lemma callSetters_in_sync (cs : list SetterCall) :
  forall p, trigonometryInSync D2R p -> trigonometryInSync D2R (callSetters D2R p cs).
Proof.
  unfold callSetters.
  induction cs as [|c cs IH]; intros p Hp; simpl; [exact Hp|].
  apply IH. apply callSetter_in_sync. exact Hp.
Qed.

Lemma callSetters_latitude (cs : list SetterCall) :
  forall p, getLatitude (callSetters D2R p cs) = lastLatitude (getLatitude p) cs.
Proof.
  unfold callSetters.
  induction cs as [|c cs IH]; intros p; simpl; [reflexivity|].
  rewrite IH. destruct p as [t sla cla slo clo [[la lo] h]].
  destruct c; reflexivity.
Qed.

Lemma newPosition_in_sync (microEpoch : N) (latitude longitude ellipsoidalHeight : R) :
  trigonometryInSync D2R (newPosition D2R microEpoch latitude longitude ellipsoidalHeight).
Proof. unfold trigonometryInSync. simpl. repeat split; reflexivity. Qed.

End PositionProperties.

Lemma sin_cos_unit (x : R) : sin x ^ 2 + cos x ^ 2 = 1.
Proof. pose proof (sin2_cos2 x) as H. unfold Rsqr in H. lra. Qed.

(** X18.  After the constructor and any sequence of calls of the four
    setters, the stored sines and cosines are those of the stored latitude
    and longitude, whatever [D2R] is: [getSlat()] is the sine of the latitude
    set last (that of the constructor if none was set) times [D2R], and the
    stored sine and cosine of each angle lie on the unit circle. *)
Theorem trigonometry_stays_in_sync (D2R : R) (microEpoch : N)
  (latitude longitude ellipsoidalHeight : R) (cs : list SetterCall) :
  let p :=
    callSetters D2R (newPosition D2R microEpoch latitude longitude ellipsoidalHeight)
      cs in
  trigonometryInSync D2R p /\
  getLatitude p = lastLatitude latitude cs /\
  getSlat p = sin (lastLatitude latitude cs * D2R) /\
  getSlat p ^ 2 + getClat p ^ 2 = 1 /\
  getSlon p ^ 2 + getClon p ^ 2 = 1.
Proof.
  intros p.
  assert (Hs : trigonometryInSync D2R p).
  { apply callSetters_in_sync. apply newPosition_in_sync. }
  assert (Hl : getLatitude p = lastLatitude latitude cs).
  { unfold p. rewrite callSetters_latitude. reflexivity. }
  destruct Hs as (H1 & H2 & H3 & H4).
  split; [repeat split; assumption|]. split; [exact Hl|].
  split; [rewrite H1, Hl; reflexivity|].
  rewrite H1, H2, H3, H4. split; apply sin_cos_unit.
Qed.

(** X19.  The stored sines and cosines follow the setters only.  For every
    position the constructor builds there is an assignment through the
    reference that [getVector()] returns after which they are no longer those
    of the stored latitude ([D2R] not being zero): [getSlat()] still returns
    the sine of the former latitude. *)
Theorem getVector_write_goes_stale (D2R : R) (microEpoch : N)
  (latitude longitude ellipsoidalHeight : R) :
  D2R <> 0 ->
  exists v : Vector3d,
    let p :=
      assignVector v
        (newPosition D2R microEpoch latitude longitude ellipsoidalHeight) in
    getVector p = v /\
    getSlat p = sin (latitude * D2R) /\
    getClat p = cos (latitude * D2R) /\
    ~ trigonometryInSync D2R p.
Proof.
  intros HD. exists (latitude + PI / D2R, longitude, ellipsoidalHeight).
  cbv zeta. split; [reflexivity|]. split; [reflexivity|]. split; [reflexivity|].
  unfold trigonometryInSync, getSlat, getClat, getLatitude. simpl.
  intros (Hs & Hc & _).
  replace ((latitude + PI / D2R) * D2R) with (latitude * D2R + PI) in Hs, Hc
    by (field; exact HD).
  rewrite neg_sin in Hs. rewrite neg_cos in Hc.
  pose proof (sin_cos_unit (latitude * D2R)). nra.
Qed.

Lemma getVector_write_goes_stale_witness :
  exists v : Vector3d,
    let p := assignVector v (newPosition (PI / 180) 0 45 0 0) in
    getVector p = v /\
    getSlat p = sin (45 * (PI / 180)) /\
    getClat p = cos (45 * (PI / 180)) /\
    ~ trigonometryInSync (PI / 180) p.
Proof.
  apply (getVector_write_goes_stale (PI / 180) 0 45 0 0).
  pose proof PI_RGT_0. lra.
Defined.

(** X20.  [sortByTimestamp] is a strict weak ordering, as [std::sort] asks of
    its comparison: no position comes before itself, two positions never come
    before each other, "before" is transitive, and the positions neither of
    which comes before the other are those of equal timestamp, which makes
    "neither before the other" transitive too. *)
Theorem sortByTimestamp_strict_weak_ordering :
  (forall p, sortByTimestamp p p = false) /\
  (forall p q, sortByTimestamp p q = true -> sortByTimestamp q p = false) /\
  (forall p q r, sortByTimestamp p q = true -> sortByTimestamp q r = true ->
                 sortByTimestamp p r = true) /\
  (forall p q, sortByTimestamp p q = false /\ sortByTimestamp q p = false <->
               getTimestamp p = getTimestamp q) /\
  (forall p q r,
     sortByTimestamp p q = false /\ sortByTimestamp q p = false ->
     sortByTimestamp q r = false /\ sortByTimestamp r q = false ->
     sortByTimestamp p r = false /\ sortByTimestamp r p = false).
Proof.
  unfold sortByTimestamp.
  split; [intros p; apply N.ltb_irrefl|].
  split.
  { intros p q H. apply N.ltb_lt in H. apply N.ltb_ge. lia. }
  split.
  { intros p q r H1 H2. apply N.ltb_lt in H1, H2. apply N.ltb_lt. lia. }
  split.
  { intros p q. rewrite !N.ltb_ge. lia. }
  intros p q r. rewrite !N.ltb_ge. lia.
Qed.

Lemma sortByTimestamp_strict_weak_ordering_witness :
  sortByTimestamp (newPosition (PI / 180) 1 0 0 0) (newPosition (PI / 180) 3 0 0 0)
  = true.
Proof.
  destruct sortByTimestamp_strict_weak_ordering as (_ & _ & Htrans & _).
  apply (Htrans (newPosition (PI / 180) 1 0 0 0) (newPosition (PI / 180) 2 0 0 0)
           (newPosition (PI / 180) 3 0 0 0)); reflexivity.
Defined.

(** * Range and depth of a trace through a well-formed profile *)

Lemma constantCelerity_not_negative (z0 z1 c snellConstant : R) :
  0 <= snellConstant -> 0 < c -> slantedAt snellConstant c -> z0 <= z1 ->
  0 <= deltaR (constantCelerityRayTracing z0 z1 c snellConstant) /\
  0 <= deltaZ (constantCelerityRayTracing z0 z1 c snellConstant).
Proof.
  unfold slantedAt. intros Hp Hc Hs Hz.
  unfold constantCelerityRayTracing. cbn [deltaR deltaZ].
  assert (Hsin : 0 < sqrt (1 - (snellConstant * c) ^ 2)) by (apply sqrt_lt_R0; lra).
  set (sinBn := sqrt (1 - (snellConstant * c) ^ 2)) in *.
  assert (HT : 0 <= (z1 - z0) / (c * sinBn)).
  { apply Rmult_le_pos; [lra|]. left. apply Rinv_0_lt_compat.
    apply Rmult_lt_0_compat; assumption. }
  split; [|lra].
  apply Rmult_le_pos; [|lra].
  apply Rmult_le_pos; [|exact HT].
  apply Rmult_le_pos; lra.
Qed.

Lemma constantGradient_not_negative (z0 z1 c0 c1 g snellConstant : R) :
  0 < snellConstant -> 0 < c0 -> 0 < c1 -> z0 < z1 ->
  slantedAt snellConstant c0 -> slantedAt snellConstant c1 ->
  g = (c1 - c0) / (z1 - z0) -> g <> 0 ->
  0 <= deltaR (constantGradientRayTracing c0 c1 g snellConstant) /\
  0 <= deltaZ (constantGradientRayTracing c0 c1 g snellConstant).
Proof.
  intros Hp H0 H1 Hz _ _ Hg Hg0.
  assert (Hp0 : snellConstant <> 0) by lra.
  split.
  - unfold constantGradientRayTracing. cbn [deltaR].
    assert (Hc : c1 - c0 = g * (z1 - z0)) by (rewrite Hg; field; lra).
    destruct (Rlt_le_dec 0 g) as [Hpos|Hneg].
    + assert (Hle : c0 <= c1) by nra.
      apply Rmult_le_pos.
      * left. unfold Rdiv. rewrite Rmult_1_l. apply Rinv_0_lt_compat.
        apply Rmult_lt_0_compat; assumption.
      * assert (sqrt (1 - (snellConstant * c1) ^ 2)
                <= sqrt (1 - (snellConstant * c0) ^ 2)).
        { apply sqrt_le_1_alt.
          assert (snellConstant * c0 <= snellConstant * c1) by nra.
          assert (0 <= snellConstant * c0) by nra.
          nra. }
        lra.
    + assert (Hlt : g < 0) by lra.
      assert (Hle : c1 <= c0) by nra.
      replace (1 / (snellConstant * g)
               * (sqrt (1 - (snellConstant * c0) ^ 2)
                  - sqrt (1 - (snellConstant * c1) ^ 2)))
        with (1 / (snellConstant * - g)
              * (sqrt (1 - (snellConstant * c1) ^ 2)
                 - sqrt (1 - (snellConstant * c0) ^ 2)))
        by (field; split; lra).
      apply Rmult_le_pos.
      * left. unfold Rdiv. rewrite Rmult_1_l. apply Rinv_0_lt_compat.
        apply Rmult_lt_0_compat; lra.
      * assert (sqrt (1 - (snellConstant * c0) ^ 2)
                <= sqrt (1 - (snellConstant * c1) ^ 2)).
        { apply sqrt_le_1_alt.
          assert (snellConstant * c1 <= snellConstant * c0) by nra.
          assert (0 <= snellConstant * c1) by nra.
          nra. }
        lra.
  - rewrite constantGradient_deltaZ by assumption.
    rewrite Hg. replace ((c1 - c0) / ((c1 - c0) / (z1 - z0))) with (z1 - z0).
    + lra.
    + field. split; [lra|]. intros E. apply Hg0. rewrite Hg, E. unfold Rdiv. ring.
Qed.

Section WellFormed.

Variable sonar2cartesian : R -> R -> R -> Vector3d.
Variable ping : Ping.
Variable svp : SoundVelocityProfile.
Variable boresightMatrix imu2nav : Matrix3d.

Local Abbreviation p := (snellConstant sonar2cartesian ping boresightMatrix imu2nav).
Local Abbreviation cutoff := (svpCutoffIndex ping svp).
Local Abbreviation walk := (layerWalk sonar2cartesian ping svp boresightMatrix imu2nav).

Hypothesis launch_in_range :
  -1 <= snd (launchVectorNav sonar2cartesian ping boresightMatrix imu2nav) <= 1.
Hypothesis not_vertical : p <> 0.
Hypothesis positive_time : 0 <= getTwoWayTravelTime ping.
Hypothesis positive_surface : 0 < getSurfaceSoundSpeed ping.
Hypothesis positive_speeds : Forall (fun c => 0 < c) (getSpeeds svp).
Hypothesis consistent : consistentProfile svp.
Hypothesis derived : derivedGradients svp.
Hypothesis increasing : increasingDepths svp.
Hypothesis below :
  forall z1, coeff (getDepths svp) cutoff = Ok z1 -> getTransducerDepth ping <= z1.
Hypothesis slanted_surface : slantedAt p (getSurfaceSoundSpeed ping).
Hypothesis slanted_speeds : Forall (slantedAt p) (getSpeeds svp).

Lemma snell_not_negative : 0 <= p.
Proof.
  unfold snellConstant. apply Rmult_le_pos.
  - apply cos_ge_0; unfold beta0, launchVectorParameters;
      destruct (launchVectorNav _ _ _ _) as [[x y] z]; cbn [snd];
      apply asin_bound.
  - left. apply Rinv_0_lt_compat. exact positive_surface.
Qed.

Lemma snell_positive : 0 < p.
Proof. pose proof snell_not_negative. pose proof not_vertical. lra. Qed.

Lemma speed_positive (i : N) (c : R) : coeff (getSpeeds svp) i = Ok c -> 0 < c.
Proof.
  intros H. apply coeff_In in H.
  rewrite Forall_forall in positive_speeds. apply positive_speeds. exact H.
Qed.

Lemma speed_slanted (i : N) (c : R) : coeff (getSpeeds svp) i = Ok c -> slantedAt p c.
Proof.
  intros H. apply coeff_In in H.
  rewrite Forall_forall in slanted_speeds. apply slanted_speeds. exact H.
Qed.

Lemma transducerLayer_not_negative (s : LayerStep) :
  transducerLayer ping svp p cutoff = Ok s -> 0 <= deltaR s /\ 0 <= deltaZ s.
Proof.
  intros H. unfold transducerLayer in H.
  apply bind_Ok in H. destruct H as [z1 [Ez H]].
  apply bind_Ok in H. destruct H as [c1 [Ec H]].
  apply bind_Ok in H. destruct H as [g [Eg H]].
  unfold soundSpeedGradient in Eg.
  destruct (Req_dec_T z1 (getTransducerDepth ping)) as [|Hz]; [discriminate|].
  injection Eg as Eg. pose proof (below z1 Ez) as Hb.
  destruct (Rlt_dec (Rabs g) gradientEpsilon) as [_|Hg]; injection H as <-.
  - apply constantCelerity_not_negative;
      [apply snell_not_negative | exact positive_surface | exact slanted_surface | exact Hb].
  - apply (constantGradient_not_negative (getTransducerDepth ping) z1);
      [apply snell_positive | exact positive_surface
      | exact (speed_positive _ _ Ec) | lra | exact slanted_surface
      | exact (speed_slanted _ _ Ec) | symmetry; exact Eg
      | apply gradient_above_epsilon; exact Hg].
Qed.

Lemma profileLayer_not_negative (i : N) (s : LayerStep) :
  (i < sizeMinusOne svp)%N ->
  profileLayer svp p i = Ok s -> 0 <= deltaR s /\ 0 <= deltaZ s.
Proof.
  destruct consistent as (H1 & Hd & Hs & Hg).
  rewrite sizeMinusOne_nonempty by exact H1. intros Hi H.
  destruct (coeff_in_range (getDepths svp) i) as [z0 [Ez0 _]]; [lia|].
  destruct (coeff_in_range (getDepths svp) (i + 1)) as [z1 [Ez1 _]]; [lia|].
  pose proof (increasing i z0 z1 Ez0 Ez1) as Hz.
  unfold profileLayer in H.
  apply bind_Ok in H. destruct H as [g [Eg H]].
  destruct (Rlt_dec (Rabs g) gradientEpsilon) as [_|Hne].
  - rewrite Ez0, Ez1 in H. cbn [bind] in H.
    apply bind_Ok in H. destruct H as [c [Ec H]]. injection H as <-.
    apply constantCelerity_not_negative;
      [apply snell_not_negative | exact (speed_positive _ _ Ec)
      | exact (speed_slanted _ _ Ec) | lra].
  - apply bind_Ok in H. destruct H as [c0 [Ec0 H]].
    apply bind_Ok in H. destruct H as [c1 [Ec1 H]]. injection H as <-.
    pose proof (derived i g z0 z1 c0 c1 Eg Ez0 Ez1 Ec0 Ec1) as Hgrad.
    unfold soundSpeedGradient in Hgrad.
    destruct (Req_dec_T z1 z0); [discriminate|]. injection Hgrad as Hgrad.
    apply (constantGradient_not_negative z0 z1);
      [apply snell_positive | exact (speed_positive _ _ Ec0)
      | exact (speed_positive _ _ Ec1) | exact Hz | exact (speed_slanted _ _ Ec0)
      | exact (speed_slanted _ _ Ec1) | symmetry; exact Hgrad
      | apply gradient_above_epsilon; exact Hne].
Qed.

Lemma firstLayer_not_negative (st : RayState) :
  firstLayer sonar2cartesian ping svp boresightMatrix imu2nav = Ok st ->
  0 <= cumulativeRayX st /\ 0 <= cumulativeRayZ st.
Proof.
  unfold firstLayer. intros H.
  destruct (cutoff <? getSize svp)%N; [|injection H as <-; simpl; lra].
  apply bind_Ok in H. destruct H as [s [Es H]].
  apply transducerLayer_not_negative in Es.
  destruct (fits ping _); injection H as <-; simpl; lra.
Qed.

Lemma layerWalk_not_negative (n : nat) :
  forall st st',
  0 <= cumulativeRayX st /\ 0 <= cumulativeRayZ st ->
  walk n st = Ok st' ->
  0 <= cumulativeRayX st' /\ 0 <= cumulativeRayZ st'.
Proof.
  induction n as [|n IH]; intros st st' Hst H.
  - simpl in H.
    destruct (walkGuard ping svp st); [discriminate | injection H as <-; exact Hst].
  - destruct (walkGuard ping svp st) eqn:G.
    + rewrite layerWalk_body in H by assumption.
      apply bind_Ok in H. destruct H as [s [Es H]].
      apply profileLayer_not_negative in Es; [|exact (walkGuard_index ping svp st G)].
      destruct (fits ping _).
      * eapply IH; [|exact H]. simpl. lra.
      * injection H as <-. exact Hst.
    + rewrite layerWalk_exit in H by assumption. injection H as <-. exact Hst.
Qed.

Lemma lastLayerSpeed_positive (st : RayState) (c : R) :
  lastLayerSpeed ping svp st = Ok c -> 0 < c.
Proof.
  unfold lastLayerSpeed.
  destruct (cutoff <? getSize svp)%N; intros H.
  - exact (speed_positive _ _ H).
  - injection H as <-. exact positive_surface.
Qed.

Lemma planarRayTrace_not_negative (rays0 : list Vector2d) (times0 : list R)
  (agg : Vector2d) (rays : list Vector2d) (times : list R) :
  planarRayTrace sonar2cartesian ping svp boresightMatrix imu2nav rays0 times0
    = Ok (agg, rays, times) ->
  0 <= fst agg /\ 0 <= snd agg.
Proof.
  intros H. apply planarRayTrace_Ok in H.
  destruct H as [pst [c (Hacc & Hc & Hagg & _ & _)]].
  pose proof (accumulated_of_planar _ _ _ _ _ _ _ _ Hacc) as H3.
  assert (H0 : 0 <= oneWayTravelTime ping) by (unfold oneWayTravelTime; lra).
  pose proof (accumulated_time _ _ _ _ _ _ H0 H3) as Ht.
  unfold accumulated in H3. apply bind_Ok in H3. destruct H3 as [st1 [H1 Hw]].
  apply firstLayer_not_negative in H1.
  pose proof (layerWalk_not_negative _ _ _ H1 Hw) as [HX HZ].
  apply lastLayerSpeed_positive in Hc.
  pose proof snell_not_negative as Hp.
  rewrite Hagg. unfold lastLayerPropagation. cbn [fst snd].
  pose proof (sqrt_pos (1 - (p * c) ^ 2)) as Hs.
  assert (0 <= c * (oneWayTravelTime ping - cumulativeRaytraceTime (ray pst)))
    by (apply Rmult_le_pos; lra).
  assert (0 <= p * c) by (apply Rmult_le_pos; lra).
  split.
  - apply Rplus_le_le_0_compat; [exact HX|]. apply Rmult_le_pos; assumption.
  - apply Rplus_le_le_0_compat; [exact HZ|]. apply Rmult_le_pos; assumption.
Qed.

End WellFormed.

(** X21.  For a launch vector whose third component lies in [-1, 1], a ray
    that is not vertical, a two-way travel time that is not negative,
    positive sound speeds, a consistent profile of increasing depths whose
    gradients are those of its samples, a sample at the cutoff index that is
    not above the transducer, and a ray that is horizontal at none of these
    speeds, the aggregate of a planar trace has a range and a depth that are
    not negative. *)
Theorem range_and_depth_not_negative
  (sonar2cartesian : R -> R -> R -> Vector3d) (ping : Ping)
  (svp : SoundVelocityProfile) (boresightMatrix imu2nav : Matrix3d)
  (rays0 : list Vector2d) (times0 : list R)
  (agg : Vector2d) (rays : list Vector2d) (times : list R) :
  let p := snellConstant sonar2cartesian ping boresightMatrix imu2nav in
  -1 <= snd (launchVectorNav sonar2cartesian ping boresightMatrix imu2nav) <= 1 ->
  p <> 0 ->
  0 <= getTwoWayTravelTime ping ->
  0 < getSurfaceSoundSpeed ping ->
  Forall (fun c => 0 < c) (getSpeeds svp) ->
  consistentProfile svp ->
  derivedGradients svp ->
  increasingDepths svp ->
  (forall z1, coeff (getDepths svp) (svpCutoffIndex ping svp) = Ok z1 ->
              getTransducerDepth ping <= z1) ->
  slantedAt p (getSurfaceSoundSpeed ping) ->
  Forall (slantedAt p) (getSpeeds svp) ->
  planarRayTrace sonar2cartesian ping svp boresightMatrix imu2nav rays0 times0
    = Ok (agg, rays, times) ->
  0 <= fst agg /\ 0 <= snd agg.
Proof.
  intros p Hv Hp H1 H2 H3 H4 H5 H6 H7 H8 H9 H.
  eapply planarRayTrace_not_negative; eassumption.
Qed.

Lemma increasingDepths_twoLayers : increasingDepths Samples.twoLayers.
Proof.
  intros i z0 z1 Hz0 Hz1.
  destruct i as [|q].
  - unfold coeff in *. simpl in *. injection Hz0 as <-. injection Hz1 as <-. lra.
  - exfalso. unfold coeff in Hz1. simpl in Hz1.
    replace (Pos.to_nat (q + 1)) with (S (Pos.to_nat q)) in Hz1
      by (rewrite Pos2Nat.inj_add; simpl; lia).
    destruct (Pos2Nat.is_succ q) as [m Hm]. rewrite Hm in Hz1. simpl in Hz1.
    destruct m; discriminate.
Qed.

Lemma range_and_depth_not_negative_witness :
  0 <= fst (18 + 900 * (1 / 20 / 2 - 1 / 50), 24 + 1200 * (1 / 20 / 2 - 1 / 50)) /\
  0 <= snd (18 + 900 * (1 / 20 / 2 - 1 / 50), 24 + 1200 * (1 / 20 / 2 - 1 / 50)).
Proof.
  apply (range_and_depth_not_negative Samples.sphericalBeam
           (Samples.nadirPing 0 (1/20)) Samples.twoLayers identity3 Samples.pitched
           [] []
           (18 + 900 * (1 / 20 / 2 - 1 / 50), 24 + 1200 * (1 / 20 / 2 - 1 / 50))
           [(9, 12); (9, 12);
            (900 * (1 / 20 / 2 - 1 / 50), 1200 * (1 / 20 / 2 - 1 / 50))]
           [1 / 100; 1 / 100; 1 / 20 / 2 - 1 / 50]).
  - rewrite launchVectorNav_pitched. cbn [snd]. lra.
  - rewrite snellConstant_pitched. simpl. intros E. lra.
  - simpl. lra.
  - simpl. lra.
  - simpl. repeat constructor; lra.
  - exact consistentProfile_twoLayers.
  - exact derivedGradients_twoLayers.
  - exact increasingDepths_twoLayers.
  - rewrite svpCutoffIndex_twoLayers. intros z1 H. unfold coeff in H. simpl in H.
    injection H as <-. simpl. lra.
  - rewrite snellConstant_pitched. unfold slantedAt. simpl. lra.
  - rewrite snellConstant_pitched. unfold slantedAt. simpl.
    repeat constructor; lra.
  - apply (planarRayTrace_twoLayers (1/20) [] []). lra.
Defined.
